(** * urxvt-kitty: Xresources colour scheme to KiTTY registry file

    A shallow embedding of [main.go] and the properties of its
    specification.  Go strings are byte strings and are modelled by
    [string] (a list of 8-bit [ascii] characters); the [uint8] channels
    of [color.RGBA] are integers with the wrap-around written out; the
    extracted [map[string]string] is a [gmap string string]. *)

From Stdlib Require Import ZArith NArith Lia Bool Ascii String List.
From Stdlib Require Import HexString DecimalString Sorted Permutation.
From Stdlib Require OrderedTypeEx DecimalZ DecimalPos.
From stdpp Require Import base gmap strings list.

Local Open Scope Z_scope.

(* Appending to a literal computes. *)
#[local] Arguments String.append !_ _ / : simpl nomatch.

(** ** Bytes and run-time outcomes *)

(** The numeric value of a byte of a Go string. *)
Definition byte_of (a : ascii) : Z := Z.of_N (N_of_ascii a).

(** Arithmetic on [uint8] wraps modulo 2^8. *)
Definition wrap8 (z : Z) : Z := z mod 256.

(** A Go function either returns or panics (a run-time error such as an
    index out of range, which is not an [error] value). *)
Inductive outcome (A : Type) : Type :=
| Panic (msg : string)
| Ret (a : A).
Arguments Panic {A} msg.
Arguments Ret {A} a.

Definition obind {A B} (m : outcome A) (k : A -> outcome B) : outcome B :=
  match m with
  | Panic msg => Panic msg
  | Ret a => k a
  end.

Notation "'let!' x ':=' m 'in' k" := (obind m (fun x => k))
  (at level 10, x name, m at level 100, k at level 200).

(** [s[i]]: indexing a string panics outside its bounds. *)
Definition byte_at (s : string) (i : nat) : outcome Z :=
  match String.get i s with
  | Some a => Ret (byte_of a)
  | None => Panic "index out of range"
  end.

(** ** The colour decoder *)

(** [color.RGBA] of the standard library. *)
Record RGBA : Type := mkRGBA { R : Z; G : Z; B : Z; A : Z }.

Definition invalid_format : string := "invalid format".

(** The closure [hexToByte] of [hexToRGB].  It assigns the named result
    [err] of the enclosing function, so the current value of [err] is
    passed in and out. *)
Definition hexToByte (b : Z) (err : option string) : Z * option string :=
  if (byte_of "0" <=? b) && (b <=? byte_of "9") then
    (wrap8 (b - byte_of "0"), err)
  else if (byte_of "a" <=? b) && (b <=? byte_of "f") then
    (wrap8 (wrap8 (b - byte_of "a") + 10), err)
  else if (byte_of "A" <=? b) && (b <=? byte_of "F") then
    (wrap8 (wrap8 (b - byte_of "A") + 10), err)
  else (0, Some invalid_format).

(** [hexToByte(x)<<4 + hexToByte(y)], evaluated left to right. *)
Definition hexPair (x y : Z) (err : option string) : Z * option string :=
  let '(hi, err) := hexToByte x err in
  let '(lo, err) := hexToByte y err in
  (wrap8 (wrap8 (Z.shiftl hi 4) + lo), err).

(** [hexToByte(x) * 17]. *)
Definition hexShort (x : Z) (err : option string) : Z * option string :=
  let '(d, err) := hexToByte x err in
  (wrap8 (d * 17), err).

(** [hexToRGB] returns the pair [(c, err)]; [err = None] is Go's [nil]. *)
Definition hexToRGB (s : string) : outcome (RGBA * option string) :=
  let c := mkRGBA 0 0 0 255 in
  let! s0 := byte_at s 0 in
  if negb (s0 =? byte_of "#") then Ret (c, Some invalid_format) else
  match String.length s with
  | 7%nat =>
      let! s1 := byte_at s 1 in
      let! s2 := byte_at s 2 in
      let '(r, err) := hexPair s1 s2 None in
      let! s3 := byte_at s 3 in
      let! s4 := byte_at s 4 in
      let '(g, err) := hexPair s3 s4 err in
      let! s5 := byte_at s 5 in
      let! s6 := byte_at s 6 in
      let '(b, err) := hexPair s5 s6 err in
      Ret (mkRGBA r g b (A c), err)
  | 4%nat =>
      let! s1 := byte_at s 1 in
      let '(r, err) := hexShort s1 None in
      let! s2 := byte_at s 2 in
      let '(g, err) := hexShort s2 err in
      let! s3 := byte_at s 3 in
      let '(b, err) := hexShort s3 err in
      Ret (mkRGBA r g b (A c), err)
  | _ => Ret (c, Some invalid_format)
  end.

(** *** Reference notions for the decoder's contract *)

(** A character of the class [[0-9a-fA-F]]. *)
Definition is_hex (a : ascii) : bool :=
  let n := N_of_ascii a in
  ((48 <=? n) && (n <=? 57) || (97 <=? n) && (n <=? 102)
   || (65 <=? n) && (n <=? 70))%N.

Fixpoint all_chars (p : ascii -> bool) (s : string) : bool :=
  match s with
  | EmptyString => true
  | String a s' => p a && all_chars p s'
  end.

(** ['#'] followed by exactly [n] hexadecimal digits. *)
Definition hex_colour (n : nat) (s : string) : bool :=
  match s with
  | String a ds => Ascii.eqb a "#" && (String.length ds =? n)%nat && all_chars is_hex ds
  | EmptyString => false
  end.

(** The number written by the hexadecimal digits [len] characters long
    at offset [i] of [s], read by the standard library's [HexString]. *)
Definition hex_value (s : string) (i len : nat) : Z :=
  Z.of_N (HexString.Raw.to_N (String.substring i len s) 0%N).

(** ** Regular expressions (package [regexp])

    The fragment of the syntax that [reParseItems] uses.  Go's matcher
    returns the leftmost match and, among the matches that start there,
    the one a backtracking search finds first; [exec] lists the ways
    to match at the start of the input in that order of preference. *)

Inductive regex : Type :=
| Eps                                       (* the empty expression *)
| Str (lit : string)                        (* literal text *)
| Class (ranges : list (ascii * ascii))     (* [a-bc-d...] *)
| Cat (r1 r2 : regex)                       (* r1r2 *)
| Alt (r1 r2 : regex)                       (* r1|r2 *)
| Plus (r : regex)                          (* r+, greedy *)
| Cap (n : nat) (r : regex).                (* (r), capture group n *)

(** [r{n}] and [r{0,n}] (greedy) unfold to copies of [r]. *)
Fixpoint rep_exact (n : nat) (r : regex) : regex :=
  match n with
  | O => Eps
  | S k => Cat r (rep_exact k r)
  end.

Fixpoint rep_upto (n : nat) (r : regex) : regex :=
  match n with
  | O => Eps
  | S k => Alt (Cat r (rep_upto k r)) Eps
  end.

(** [r{lo,hi}] *)
Definition Rep (lo hi : nat) (r : regex) : regex :=
  Cat (rep_exact lo r) (rep_upto (hi - lo) r).

Definition in_range (a : ascii) (rg : ascii * ascii) : bool :=
  ((N_of_ascii (fst rg) <=? N_of_ascii a) && (N_of_ascii a <=? N_of_ascii (snd rg)))%N.

Definition in_class (ranges : list (ascii * ascii)) (a : ascii) : bool :=
  existsb (in_range a) ranges.

(** [strip_prefix p s] is [Some t] when [s = p ++ t]. *)
Fixpoint strip_prefix (p s : string) : option string :=
  match p with
  | EmptyString => Some s
  | String a p' =>
      match s with
      | EmptyString => None
      | String b s' => if Ascii.eqb a b then strip_prefix p' s' else None
      end
  end.

(** The captures recorded so far, the most recent first. *)
Definition caps : Type := list (nat * string).

Fixpoint cap_get (n : nat) (c : caps) : option string :=
  match c with
  | [] => None
  | (m, v) :: c' => if Nat.eqb m n then Some v else cap_get n c'
  end.

(** The text between the input [s] and its suffix [s']. *)
Definition consumed (s s' : string) : string :=
  String.substring 0 (String.length s - String.length s') s.

(** The iterations of [r+] from the state [st], where [body] lists the
    ways to match [r] once: after an iteration, a further one is tried
    before stopping (greedy).  The iterations are bounded by [fuel]; an
    iteration that consumes nothing is not repeated. *)
Fixpoint plus_loop (body : string * caps -> list (string * caps)) (fuel : nat)
    (st : string * caps) {struct fuel} : list (string * caps) :=
  match fuel with
  | O => []
  | S fuel' =>
      flat_map
        (fun st' =>
           (if (String.length (fst st') <? String.length (fst st))%nat
            then plus_loop body fuel' st' else []) ++ [st'])
        (body st)
  end.

(** All the ways to match [r] at the start of the input, as pairs of the
    remaining input and the captures, the preferred one first. *)
Fixpoint exec (r : regex) (st : string * caps) {struct r} : list (string * caps) :=
  match r with
  | Eps => [st]
  | Str lit =>
      match strip_prefix lit (fst st) with
      | Some s' => [(s', snd st)]
      | None => []
      end
  | Class ranges =>
      match fst st with
      | String a s' => if in_class ranges a then [(s', snd st)] else []
      | EmptyString => []
      end
  | Cat r1 r2 => flat_map (exec r2) (exec r1 st)
  | Alt r1 r2 => exec r1 st ++ exec r2 st
  | Plus r1 => plus_loop (exec r1) (S (String.length (fst st))) st
  | Cap n r1 =>
      map (fun st' => (fst st', (n, consumed (fst st) (fst st')) :: snd st'))
          (exec r1 st)
  end.

(** The number of capture groups of an expression. *)
Fixpoint num_subexp (r : regex) : nat :=
  match r with
  | Eps | Str _ | Class _ => O
  | Cat r1 r2 | Alt r1 r2 => Nat.max (num_subexp r1) (num_subexp r2)
  | Plus r1 => num_subexp r1
  | Cap n r1 => Nat.max n (num_subexp r1)
  end.

(** A submatch: the whole match, then the text of each group (the empty string
    for a group that took no part). *)
Definition submatch_of (r : regex) (s : string) (st : string * caps) : list string :=
  consumed s (fst st)
  :: map (fun n => default EmptyString (cap_get n (snd st))) (seq 1 (num_subexp r)).

(** The match of [r] that starts at the beginning of [s]: its submatch
    and its length. *)
Definition match_here (r : regex) (s : string) : option (list string * nat) :=
  match exec r (s, []) with
  | st :: _ => Some (submatch_of r s st, (String.length s - String.length (fst st))%nat)
  | [] => None
  end.

(** [r.FindAllStringSubmatch(s, -1)] for an expression that matches no
    empty text: the successive leftmost matches, none overlapping the
    one before it.  [skip] counts the characters of the current match
    still to pass over. *)
Fixpoint find_all_from (r : regex) (s : string) (skip : nat) {struct s}
  : list (list string) :=
  match s with
  | EmptyString => []
  | String _ s' =>
      match skip with
      | S k => find_all_from r s' k
      | O =>
          match match_here r s with
          | Some (m, len) => m :: find_all_from r s' (len - 1)
          | None => find_all_from r s' O
          end
      end
  end.

Definition FindAllStringSubmatch (r : regex) (s : string) : list (list string) :=
  find_all_from r s O.

(** [reParseItems]:
    [\*\.(color[0-9]{1,2}|foreground|background|cursorColor)+: +(#[a-fA-F0-9]{6})] *)

(** [color[0-9]{1,2}|foreground|background|cursorColor] *)
Definition key_alternatives : regex :=
  Alt (Cat (Str "color") (Rep 1 2 (Class [("0", "9")%char])))
 (Alt (Str "foreground")
 (Alt (Str "background")
      (Str "cursorColor"))).

(** [#[a-fA-F0-9]{6}] *)
Definition hex_code : regex :=
  Cat (Str "#") (Rep 6 6 (Class [("a", "f"); ("A", "F"); ("0", "9")]%char)).

(** What follows the leading [\*]. *)
Definition after_star : regex :=
  Cat (Str ".")
 (Cat (Plus (Cap 1 key_alternatives))
 (Cat (Str ":")
 (Cat (Plus (Str " "))
      (Cap 2 hex_code)))).

Definition reParseItems : regex := Cat (Str "*") after_star.

(** ** Formatting (packages [fmt], [strconv], [strings] and [net/url]) *)

(** The verb [%d]. *)
Definition itoa (z : Z) : string := NilZero.string_of_int (Z.to_int z).

Definition hex_digit (upper : bool) (n : N) : ascii :=
  if (n <? 10)%N then ascii_of_N (48 + n)
  else ascii_of_N ((if upper then 55 else 87) + n).

(** The two hexadecimal digits of a byte. *)
Definition hex_byte (upper : bool) (a : ascii) : string :=
  let n := N_of_ascii a in
  String (hex_digit upper (n / 16)) (String (hex_digit upper (n mod 16)) EmptyString).

(** The double quote. *)
Definition dquote : ascii := ascii_of_N 34.

(** [strconv.Quote] on one byte: the quote and the backslash are escaped,
    control characters are written as escapes, and the other bytes stay.
    This is what Go writes for every byte below 128.  Above, Go decodes
    UTF-8 and keeps printable runes only, which is not modelled: the
    statements that quote a file name take it in ASCII ([ascii_text]);
    the names and the numbers of the entries always are. *)
Definition quote_char (a : ascii) : string :=
  let n := N_of_ascii a in
  if Ascii.eqb a dquote then String "\" (String dquote EmptyString)
  else if Ascii.eqb a "\" then "\\"
  else if (n =? 7)%N then "\a"
  else if (n =? 8)%N then "\b"
  else if (n =? 12)%N then "\f"
  else if (n =? 10)%N then "\n"
  else if (n =? 13)%N then "\r"
  else if (n =? 9)%N then "\t"
  else if (n =? 11)%N then "\v"
  else if ((n <? 32) || (n =? 127))%N then "\x" +:+ hex_byte false a
  else String a EmptyString.

Fixpoint quote_body (s : string) : string :=
  match s with
  | EmptyString => EmptyString
  | String a s' => quote_char a +:+ quote_body s'
  end.

(** The verb [%q]. *)
Definition quote (s : string) : string :=
  String dquote (quote_body s +:+ String dquote EmptyString).

(** [strings.Join] *)
Fixpoint Join (elems : list string) (sep : string) : string :=
  match elems with
  | [] => EmptyString
  | [e] => e
  | e :: rest => e +:+ sep +:+ Join rest sep
  end.

(** [shouldEscape(c, encodePathSegment)] of [net/url]: letters, digits
    and [-_.~] stay, and so do the reserved [$&+:=@]. *)
Definition shouldEscape (a : ascii) : bool :=
  let n := N_of_ascii a in
  if ((97 <=? n) && (n <=? 122) || (65 <=? n) && (n <=? 90)
      || (48 <=? n) && (n <=? 57))%N then false
  else if existsb (Ascii.eqb a) ["-"; "_"; "."; "~"]%char then false
  else if existsb (Ascii.eqb a) ["$"; "&"; "+"; ":"; "="; "@"]%char then false
  else true.

(** [url.PathEscape] *)
Fixpoint PathEscape (s : string) : string :=
  match s with
  | EmptyString => EmptyString
  | String a s' =>
      (if shouldEscape a then String "%" (hex_byte true a) else String a EmptyString)
      +:+ PathEscape s'
  end.

(** The line feed. *)
Definition nl : string := String (ascii_of_N 10) EmptyString.

(** ** The program *)

Definition colorPrefix : string := "Colour".

(** The literal of [nameReplacements], in the order it is written.  A Go
    map is ranged over in an unspecified order: a run takes the order of
    its iteration as a parameter (see [iteration_order]). *)
Definition nameReplacements : list (string * list Z) :=
  [ ("foreground", [0; 1]);
    ("background", [2; 3]);
    ("cursorColor", [4; 5]);
    ("color0", [6]);
    ("color8", [7]);
    ("color1", [8]);
    ("color9", [9]);
    ("color2", [10]);
    ("color10", [11]);
    ("color3", [12]);
    ("color11", [13]);
    ("color4", [14]);
    ("color12", [15]);
    ("color5", [16]);
    ("color13", [17]);
    ("color6", [18]);
    ("color14", [19]);
    ("color7", [20]);
    ("color15", [21]) ].

(** The orders in which [range nameReplacements] may visit the table. *)
Definition iteration_order (order : list (string * list Z)) : Prop :=
  Permutation order nameReplacements.

Record colormatch : Type := mkColormatch { name : string; color : RGBA }.

Definition getRGB (cm : colormatch) : string :=
  itoa (R (color cm)) +:+ "," +:+ itoa (G (color cm)) +:+ "," +:+ itoa (B (color cm)).

(** The errors that [app] returns, one constructor for each place that
    builds one; [Error] gives the message. *)
Inductive app_error : Type :=
| ErrUsage
| ErrSessionName
| ErrOpen (fname msg : string)
| ErrRead (fname msg : string)
| ErrNoColorCodes (fname : string)
| ErrSubmatch (idx : nat) (v : list string)
| ErrKeysNotFound (notFoundKeys : list string)
| ErrHexColor (hexColor msg : string).

Definition Error (e : app_error) : string :=
  match e with
  | ErrUsage =>
      "usage: urxvt-kitty [filename] [sessionName] -- get colors from: http://dotshare.it/category/terms/colors/"
  | ErrSessionName => "session name is empty"
  | ErrOpen fname msg => "can't open file " +:+ quote fname +:+ ": " +:+ msg
  | ErrRead fname msg => "can't read file " +:+ quote fname +:+ ": " +:+ msg
  | ErrNoColorCodes fname =>
      "file " +:+ quote fname +:+ " format is invalid: no color codes found"
  | ErrSubmatch idx v =>
      "no color code format found in mapping submatch at position "
      +:+ itoa (Z.of_nat idx) +:+ ": mappings: []string{"
      +:+ Join (map quote v) ", " +:+ "}"
  | ErrKeysNotFound notFoundKeys =>
      "the following keys weren't found in the config file: "
      +:+ Join notFoundKeys ", "
  | ErrHexColor hexColor msg =>
      "unable to parse hex color " +:+ quote hexColor +:+ ": " +:+ msg
  end.

(** What the file system answers for a path: [os.Open] fails, or the
    file opens and [io.Copy] fails, or the file is read whole. *)
Inductive file_result : Type :=
| OpenFails (msg : string)
| ReadFails (msg : string)
| Contents (text : string).

(** The effects of a run, in the order they happen. *)
Inductive event : Type :=
| OsOpen (fname : string)
| FileClose (fname : string)
| Stdout (text : string)
| Stderr (text : string).

(** Lines 90-96: the loop that fills [values]; a later match of a key
    replaces an earlier one. *)
Fixpoint fill_values (idx : nat) (objects : list (list string))
    (values : gmap string string) : app_error + gmap string string :=
  match objects with
  | [] => inr values
  | v :: rest =>
      match v with
      | [_; v1; v2] => fill_values (S idx) rest (<[v1 := v2]> values)
      | _ => inl (ErrSubmatch idx v)
      end
  end.

(** Lines 114-119: one entry for each slot of a key. *)
Definition add_slots (kvals : list colormatch) (keyItems : list Z)
    (converted : RGBA) : list colormatch :=
  fold_left
    (fun kvals m => kvals ++ [mkColormatch (colorPrefix +:+ itoa m) converted])
    keyItems kvals.

(** Lines 101-120: the loop over the table, in the order [order]. *)
Fixpoint resolve (order : list (string * list Z)) (values : gmap string string)
    (notFoundKeys : list string) (kvals : list colormatch)
  : outcome (app_error + list string * list colormatch) :=
  match order with
  | [] => Ret (inr (notFoundKeys, kvals))
  | (keyName, keyItems) :: rest =>
      match values !! keyName with
      | None => resolve rest values (notFoundKeys ++ [keyName]) kvals
      | Some hexColor =>
          let! r := hexToRGB hexColor in
          match snd r with
          | Some msg => Ret (inl (ErrHexColor hexColor msg))
          | None => resolve rest values notFoundKeys (add_slots kvals keyItems (fst r))
          end
      end
  end.

(** [sort.Slice(kvals, less)] with [less] comparing the names byte by
    byte.  The library promises a sorted permutation and no stability;
    insertion keeps that promise. *)
Definition less (x y : colormatch) : bool := String.ltb (name x) (name y).

Fixpoint insert_sorted (x : colormatch) (l : list colormatch) : list colormatch :=
  match l with
  | [] => [x]
  | y :: l' => if less y x then y :: insert_sorted x l' else x :: l
  end.

Definition sort_Slice (l : list colormatch) : list colormatch :=
  fold_right insert_sorted [] l.

(** Lines 132-134: the three lines of the header. *)
Definition header (sname : string) : string :=
  "Windows Registry Editor Version 5.00" +:+ nl
  +:+ nl
  +:+ "[HKEY_CURRENT_USER\Software\9bis.com\KiTTY\Sessions\" +:+ PathEscape sname +:+ "]" +:+ nl.

(** Line 137: the line of one entry. *)
Definition entry_line (cm : colormatch) : string :=
  quote (name cm) +:+ "=" +:+ quote (getRGB cm) +:+ nl.

Definition entry_lines (kvals : list colormatch) : string :=
  fold_left (fun b cm => b +:+ entry_line cm) kvals EmptyString.

(** [app], given [os.Args[1:]], the file system and the order in which
    the table is ranged over.  It yields the effects and the returned
    error ([None] is [nil]). *)
Definition app (args : list string) (fs : string -> file_result)
    (order : list (string * list Z)) : list event * outcome (option app_error) :=
  match args with
  | [fname; sname] =>
      if String.eqb sname EmptyString then ([], Ret (Some ErrSessionName)) else
      match fs fname with
      | OpenFails msg => ([OsOpen fname], Ret (Some (ErrOpen fname msg)))
      | ReadFails msg =>
          ([OsOpen fname; FileClose fname], Ret (Some (ErrRead fname msg)))
      | Contents text =>
          let closing (r : list event * outcome (option app_error)) :=
            (OsOpen fname :: fst r ++ [FileClose fname], snd r) in
          closing
            (let objects := FindAllStringSubmatch reParseItems text in
             if (length objects =? 0)%nat then ([], Ret (Some (ErrNoColorCodes fname))) else
             match fill_values 0 objects ∅ with
             | inl e => ([], Ret (Some e))
             | inr values =>
                 match resolve order values [] [] with
                 | Panic msg => ([], Panic msg)
                 | Ret (inl e) => ([], Ret (Some e))
                 | Ret (inr (notFoundKeys, kvals)) =>
                     if negb (length notFoundKeys =? 0)%nat
                     then ([], Ret (Some (ErrKeysNotFound notFoundKeys)))
                     else
                       let kvals := sort_Slice kvals in
                       let b := header sname +:+ entry_lines kvals in
                       ([Stdout (b +:+ nl)], Ret None)
                 end
             end)
      end
  | _ => ([], Ret (Some ErrUsage))
  end.

(** The result of the process: its effects and its exit status. *)
Record process : Type := mkProcess { trace : list event; exit_status : Z }.

(** [main]: an error is printed after [Error:] and the status is 1; a
    panic ends the process with status 2. *)
Definition main (args : list string) (fs : string -> file_result)
    (order : list (string * list Z)) : process :=
  match app args fs order with
  | (evs, Ret None) => mkProcess evs 0
  | (evs, Ret (Some err)) =>
      mkProcess (evs ++ [Stderr ("Error: " +:+ Error err +:+ nl)]) 1
  | (evs, Panic msg) =>
      mkProcess (evs ++ [Stderr ("panic: " +:+ msg +:+ nl)]) 2
  end.

(** Everything written to the standard output. *)
Fixpoint stdout_of (evs : list event) : string :=
  match evs with
  | [] => EmptyString
  | Stdout text :: evs' => text +:+ stdout_of evs'
  | _ :: evs' => stdout_of evs'
  end.

(** The calls of [os.Open]. *)
Fixpoint opened (evs : list event) : list string :=
  match evs with
  | [] => []
  | OsOpen fname :: evs' => fname :: opened evs'
  | _ :: evs' => opened evs'
  end.

(** ** Reference notions for the statements *)

(** What it means for an expression to match the word [w] and record the
    captures [c] (the most recent first), whatever the search order. *)
Inductive run : regex -> string -> caps -> Prop :=
| run_Eps : run Eps EmptyString []
| run_Str lit : run (Str lit) lit []
| run_Class ranges a :
    in_class ranges a = true -> run (Class ranges) (String a EmptyString) []
| run_Cat r1 r2 w1 w2 c1 c2 :
    run r1 w1 c1 -> run r2 w2 c2 -> run (Cat r1 r2) (w1 +:+ w2) (c2 ++ c1)
| run_Alt_l r1 r2 w c : run r1 w c -> run (Alt r1 r2) w c
| run_Alt_r r1 r2 w c : run r2 w c -> run (Alt r1 r2) w c
| run_Plus_one r w c : run r w c -> run (Plus r) w c
| run_Plus_more r w1 w2 c1 c2 :
    run r w1 c1 -> run (Plus r) w2 c2 -> run (Plus r) (w1 +:+ w2) (c2 ++ c1)
| run_Cap n r w c : run r w c -> run (Cap n r) w ((n, w) :: c).

(** What one result of a search says about the input and the captures. *)
Definition result_of (r : regex) (st st' : string * caps) : Prop :=
  exists w c, fst st = w +:+ fst st' /\ snd st' = c ++ snd st /\ run r w c.

(** No text that [r] matches contains the character [a]. *)
Fixpoint regex_avoids (a : ascii) (r : regex) : bool :=
  match r with
  | Eps => true
  | Str lit => all_chars (fun b => negb (Ascii.eqb b a)) lit
  | Class ranges => negb (in_class ranges a)
  | Cat r1 r2 | Alt r1 r2 => regex_avoids a r1 && regex_avoids a r2
  | Plus r1 | Cap _ r1 => regex_avoids a r1
  end.

(** The text holds no star. *)
Definition star_free (w : string) : bool :=
  all_chars (fun b => negb (Ascii.eqb b "*")) w.

Definition is_digit (a : ascii) : bool :=
  ((48 <=? N_of_ascii a) && (N_of_ascii a <=? 57))%N.

(** One of the alternatives of the key group: [color] and one or two
    decimal digits, [foreground], [background] or [cursorColor]. *)
Definition is_key (k : string) : bool :=
  match strip_prefix "color" k with
  | Some ds =>
      ((String.length ds =? 1)%nat || (String.length ds =? 2)%nat)
      && all_chars is_digit ds
  | None => false
  end
  || String.eqb k "foreground" || String.eqb k "background"
  || String.eqb k "cursorColor".

(** The 19 keys of the table. *)
Definition required_keys : list string := map fst nameReplacements.

Fixpoint spaces (n : nat) : string :=
  match n with
  | O => EmptyString
  | S k => String " " (spaces k)
  end.

(** The text of an assignment of the colour [h] to the key [k], with [n]
    more spaces than the one the format asks for. *)
Definition assignment (k : string) (n : nat) (h : string) : string :=
  "*." +:+ k +:+ ": " +:+ spaces n +:+ h.

(** The text holds an assignment of a six-digit colour to the key [k]. *)
Definition assigns (text k : string) : Prop :=
  exists pre n h post,
    hex_colour 6 h = true /\ text = pre +:+ assignment k n h +:+ post.

(** A submatch that [reParseItems] can produce. *)
Definition well_formed (m : list string) : Prop :=
  exists w k h, m = [w; k; h] /\ is_key k = true /\ hex_colour 6 h = true.

(** The colour of the last submatch for the key [k]. *)
Fixpoint last_value (k : string) (objects : list (list string)) : option string :=
  match objects with
  | [] => None
  | v :: rest =>
      match last_value k rest with
      | Some h => Some h
      | None =>
          match v with
          | [_; k'; h] => if String.eqb k' k then Some h else None
          | _ => None
          end
      end
  end.

(** The mapping that lines 84-96 extract from a text. *)
Definition extracted (text : string) : gmap string string :=
  match fill_values 0 (FindAllStringSubmatch reParseItems text) ∅ with
  | inr values => values
  | inl _ => ∅
  end.

(** The keys of the table without a value, in the order of the
    iteration. *)
Definition missing_keys (order : list (string * list Z))
    (values : gmap string string) : list string :=
  List.filter (fun k => match values !! k with None => true | Some _ => false end)
              (map fst order).

(** The colour that a six-digit code writes. *)
Definition colour_of (h : string) : RGBA :=
  mkRGBA (hex_value h 1 2) (hex_value h 3 2) (hex_value h 5 2) 255.

(** The entries of one row of the table. *)
Definition entries_of (values : gmap string string) (row : string * list Z)
  : list colormatch :=
  match values !! fst row with
  | Some h => map (fun m => mkColormatch (colorPrefix +:+ itoa m) (colour_of h)) (snd row)
  | None => []
  end.

(** The 22 entries in the order of their names, byte by byte:
    [Colour10] comes before [Colour2]. *)
Definition sorted_entries (get : string -> RGBA) : list colormatch :=
  [ mkColormatch "Colour0" (get "foreground");
    mkColormatch "Colour1" (get "foreground");
    mkColormatch "Colour10" (get "color2");
    mkColormatch "Colour11" (get "color10");
    mkColormatch "Colour12" (get "color3");
    mkColormatch "Colour13" (get "color11");
    mkColormatch "Colour14" (get "color4");
    mkColormatch "Colour15" (get "color12");
    mkColormatch "Colour16" (get "color5");
    mkColormatch "Colour17" (get "color13");
    mkColormatch "Colour18" (get "color6");
    mkColormatch "Colour19" (get "color14");
    mkColormatch "Colour2" (get "background");
    mkColormatch "Colour20" (get "color7");
    mkColormatch "Colour21" (get "color15");
    mkColormatch "Colour3" (get "background");
    mkColormatch "Colour4" (get "cursorColor");
    mkColormatch "Colour5" (get "cursorColor");
    mkColormatch "Colour6" (get "color0");
    mkColormatch "Colour7" (get "color8");
    mkColormatch "Colour8" (get "color1");
    mkColormatch "Colour9" (get "color9") ].

(** [x] may stand before [y] in a sorted slice. *)
Definition may_precede (x y : colormatch) : Prop := less y x = false.

(** The text holds no line feed. *)
Definition no_nl (s : string) : bool :=
  all_chars (fun a => negb (Ascii.eqb a (ascii_of_N 10))) s.

(** Characters that [%q] leaves as they are and that the names and the
    numbers are written with. *)
Definition safe (a : ascii) : bool :=
  let n := N_of_ascii a in
  ((48 <=? n) && (n <=? 57) || (97 <=? n) && (n <=? 122) || (65 <=? n) && (n <=? 90)
   || (n =? 44) || (n =? 45))%N.

(** A text between double quotes. *)
Definition quoted (s : string) : string :=
  String dquote (s +:+ String dquote EmptyString).

(** All the slots of the table. *)
Definition slots : list Z := concat (map snd nameReplacements).

(** A file with one assignment for each key of [keys], one on a line. *)
Definition scheme_text (get : string -> string) (keys : list string) : string :=
  fold_right (fun k acc => assignment k 0 (get k) +:+ nl +:+ acc) EmptyString keys.

(** A colour scheme: the colours of its keys, ... *)
Definition sample_colours (k : string) : string :=
  if String.eqb k "foreground" then "#1a2b3c"
  else if String.eqb k "background" then "#000000"
  else if String.eqb k "cursorColor" then "#FFffFF"
  else if String.eqb k "color15" then "#FF00aB"
  else "#8a2be2".

(** ... and its file. *)
Definition sample_scheme : string := scheme_text sample_colours required_keys.

(** The same file without the line of [color7] and of [color3], the
    line of [color1] given twice. *)
Definition sample_incomplete : string :=
  scheme_text sample_colours
    (List.filter (fun k => negb (String.eqb k "color7" || String.eqb k "color3"))
                 required_keys ++ ["color1"]).

(** A file system with the file [colors] alone. *)
Definition one_file (text : string) (fname : string) : file_result :=
  if String.eqb fname "colors" then Contents text
  else OpenFails "open: no such file or directory".

(** The colour that a mapping gives to a key. *)
Definition colour_in (values : gmap string string) (k : string) : RGBA :=
  colour_of (default EmptyString (values !! k)).

(** The text of a line ["name"="R,G,B"]. *)
Definition entry_text (cm : colormatch) : string :=
  String dquote (name cm) +:+ String dquote ("=" +:+ String dquote (getRGB cm))
  +:+ String dquote EmptyString.

(** The lines of the header. *)
Definition header_lines (sname : string) : list string :=
  [ "Windows Registry Editor Version 5.00";
    EmptyString;
    "[HKEY_CURRENT_USER\Software\9bis.com\KiTTY\Sessions\" +:+ PathEscape sname +:+ "]" ].

(** The lines of a text, each ended by a line feed (a last line without
    one counts when it is not empty). *)
Fixpoint lines (s : string) : list string :=
  match s with
  | EmptyString => []
  | String a s' =>
      if Ascii.eqb a (ascii_of_N 10) then EmptyString :: lines s'
      else match lines s' with
           | [] => [String a EmptyString]
           | l :: ls => String a l :: ls
           end
  end.

(** The text of the line of an entry, spelled out: the name between
    double quotes, [=], and between double quotes the three channels in
    decimal with commas between them. *)
Definition line_text (cm : colormatch) : string :=
  quoted (name cm) +:+ "="
  +:+ quoted (itoa (R (color cm)) +:+ "," +:+ itoa (G (color cm)) +:+ ","
              +:+ itoa (B (color cm))).

(** Every byte of the text is below 128. *)
Definition ascii_text (s : string) : bool :=
  all_chars (fun a => (N_of_ascii a <? 128)%N) s.

(** *** Notions for the further properties *)

(** A lower-case hexadecimal letter in upper case; other characters stay. *)
Definition hex_upper (a : ascii) : ascii :=
  let n := N_of_ascii a in
  if ((97 <=? n) && (n <=? 102))%N then ascii_of_N (n - 32) else a.

Fixpoint map_chars (f : ascii -> ascii) (s : string) : string :=
  match s with
  | EmptyString => EmptyString
  | String a s' => String (f a) (map_chars f s')
  end.

(** The files closed during a run. *)
Fixpoint closed (evs : list event) : list string :=
  match evs with
  | [] => []
  | FileClose fname :: evs' => fname :: closed evs'
  | _ :: evs' => closed evs'
  end.

(** Everything written to the standard error. *)
Fixpoint stderr_of (evs : list event) : string :=
  match evs with
  | [] => EmptyString
  | Stderr text :: evs' => text +:+ stderr_of evs'
  | _ :: evs' => stderr_of evs'
  end.

(** [os.Open] succeeds on the path. *)
Definition opens (fs : string -> file_result) (fname : string) : bool :=
  match fs fname with
  | OpenFails _ => false
  | _ => true
  end.

(** The sample file without the line of [color7]. *)
Definition sample_without_color7 : string :=
  scheme_text sample_colours
    (List.filter (fun k => negb (String.eqb k "color7")) required_keys).

(** The sample file with a comment, an assignment to a key that the
    table does not hold, and a line in another format. *)
Definition sample_with_more : string :=
  "! my scheme" +:+ nl +:+ sample_scheme +:+ "*.color16: #123456" +:+ nl
  +:+ "URxvt.font: xft:monospace" +:+ nl.

(** * Properties *)

(** ** The colour decoder *)

Section Decoder.

Lemma hexToByte_hex (a : ascii) :
  is_hex a = true ->
  exists v, HexString.ascii_to_digit a = Some v /\ (v < 16)%N /\
            forall err, hexToByte (byte_of a) err = (Z.of_N v, err).
Proof.
  destruct a as [[] [] [] [] [] [] [] []]; intros H; try discriminate H;
    eexists; (split; [reflexivity | split; [reflexivity | intros err; reflexivity]]).
Qed.

Lemma hexToByte_not_hex (a : ascii) (err : option string) :
  is_hex a = false -> hexToByte (byte_of a) err = (0, Some invalid_format).
Proof.
  destruct a as [[] [] [] [] [] [] [] []]; intros H; try discriminate H; reflexivity.
Qed.

Lemma hexToByte_err_kept (b : Z) (msg : string) :
  snd (hexToByte b (Some msg)) <> None.
Proof.
  unfold hexToByte.
  repeat match goal with |- context [if ?c then _ else _] => destruct c end;
    simpl; discriminate.
Qed.

Lemma hexPair_hex (a b : ascii) (err : option string) :
  is_hex a = true -> is_hex b = true ->
  hexPair (byte_of a) (byte_of b) err
  = (Z.of_N (HexString.Raw.to_N (String a (String b EmptyString)) 0%N), err).
Proof.
  intros Ha Hb.
  destruct (hexToByte_hex a Ha) as (va & Ea & La & Ha').
  destruct (hexToByte_hex b Hb) as (vb & Eb & Lb & Hb').
  unfold hexPair. rewrite Ha', Hb'. simpl. rewrite Ea, Eb.
  f_equal. unfold wrap8. rewrite Z.shiftl_mul_pow2 by lia.
  change (2 ^ 4) with 16.
  rewrite (Z.mod_small (Z.of_N va * 16)) by lia.
  rewrite Z.mod_small by lia. lia.
Qed.

Lemma hexShort_hex (a : ascii) (err : option string) :
  is_hex a = true ->
  hexShort (byte_of a) err
  = (Z.of_N (HexString.Raw.to_N (String a EmptyString) 0%N) * 17, err).
Proof.
  intros Ha.
  destruct (hexToByte_hex a Ha) as (va & Ea & La & Ha').
  unfold hexShort. rewrite Ha'. simpl. rewrite Ea.
  f_equal. unfold wrap8. rewrite Z.mod_small by lia. lia.
Qed.

End Decoder.

Lemma hexToRGB_colour_of (s : string) :
  hex_colour 6 s = true -> hexToRGB s = Ret (colour_of s, None).
Proof.
  intros H. unfold colour_of.
  destruct s as [|a0 [|a1 [|a2 [|a3 [|a4 [|a5 [|a6 [|a7 s]]]]]]]];
    try discriminate H; simpl in H; rewrite ?andb_false_r in H; try discriminate H.
  rewrite andb_true_r in H.
  repeat (apply andb_prop in H; destruct H as [? H]).
  apply Ascii.eqb_eq in H0; subst a0.
  unfold hexToRGB, byte_at; simpl.
  rewrite (hexPair_hex a1 a2) by assumption.
  rewrite (hexPair_hex a3 a4) by assumption.
  rewrite (hexPair_hex a5 a6) by assumption.
  reflexivity.
Qed.

(** C3: the decoder on ['#'] and six hexadecimal digits returns no error,
    the channels are the numbers written by the three pairs of digits,
    and alpha is 0xff. *)
Theorem hexToRGB_six_digits (s : string) :
  hex_colour 6 s = true ->
  hexToRGB s
  = Ret (mkRGBA (hex_value s 1 2) (hex_value s 3 2) (hex_value s 5 2) 255, None).
Proof. exact (hexToRGB_colour_of s). Qed.

Lemma hexToRGB_six_digits_witness :
  hex_colour 6 "#1a2b3c" = true /\
  hexToRGB "#1a2b3c" = Ret (mkRGBA 26 43 60 255, None).
Proof.
  split; [reflexivity | exact (hexToRGB_six_digits "#1a2b3c" eq_refl)].
Defined.

(** C4: the decoder on ['#'] and three hexadecimal digits returns no
    error and each channel is 17 times the value of its digit. *)
Theorem hexToRGB_three_digits (s : string) :
  hex_colour 3 s = true ->
  hexToRGB s
  = Ret (mkRGBA (hex_value s 1 1 * 17) (hex_value s 2 1 * 17) (hex_value s 3 1 * 17) 255,
         None).
Proof.
  intros H.
  destruct s as [|a0 [|a1 [|a2 [|a3 [|a4 s]]]]];
    try discriminate H; simpl in H; rewrite ?andb_false_r in H; try discriminate H.
  rewrite andb_true_r in H.
  repeat (apply andb_prop in H; destruct H as [? H]).
  apply Ascii.eqb_eq in H0; subst a0.
  unfold hexToRGB, byte_at; simpl.
  rewrite (hexShort_hex a1), (hexShort_hex a2), (hexShort_hex a3) by assumption.
  reflexivity.
Qed.

Lemma hexToRGB_three_digits_witness :
  (hex_colour 3 "#8a2" = true /\
   hexToRGB "#8a2" = Ret (mkRGBA 136 170 34 255, None)) /\
  (hex_colour 3 "#fff" = true /\
   hexToRGB "#fff" = Ret (mkRGBA 255 255 255 255, None)).
Proof.
  split; (split; [reflexivity |]).
  - exact (hexToRGB_three_digits "#8a2" eq_refl).
  - exact (hexToRGB_three_digits "#fff" eq_refl).
Defined.

Section DecoderRejects.

Lemma byte_of_hash (a : ascii) :
  (byte_of a =? byte_of "#") = Ascii.eqb a "#".
Proof. destruct a as [[] [] [] [] [] [] [] []]; reflexivity. Qed.

Lemma hexToByte_err (a : ascii) (err : option string) :
  snd (hexToByte (byte_of a) err) = if is_hex a then err else Some invalid_format.
Proof.
  destruct (is_hex a) eqn:E.
  - destruct (hexToByte_hex a E) as (v & _ & _ & ->). reflexivity.
  - rewrite hexToByte_not_hex by assumption. reflexivity.
Qed.

Lemma hexPair_err (a b : ascii) (err : option string) :
  snd (hexPair (byte_of a) (byte_of b) err)
  = if is_hex b then (if is_hex a then err else Some invalid_format)
    else Some invalid_format.
Proof.
  unfold hexPair.
  pose proof (hexToByte_err a err) as Ha.
  destruct (hexToByte (byte_of a) err) as [hi e1]. simpl in Ha. subst e1.
  pose proof (hexToByte_err b (if is_hex a then err else Some invalid_format)) as Hb.
  destruct (hexToByte (byte_of b) _) as [lo e2]. simpl in *. exact Hb.
Qed.

Lemma hexShort_err (a : ascii) (err : option string) :
  snd (hexShort (byte_of a) err) = if is_hex a then err else Some invalid_format.
Proof.
  unfold hexShort. pose proof (hexToByte_err a err) as Ha.
  destruct (hexToByte (byte_of a) err) as [d e1]. exact Ha.
Qed.

(** Every string but the empty one that is neither ['#'] and six digits
    nor ['#'] and three digits is refused with "invalid format". *)
Lemma hexToRGB_rejects (s : string) :
  s <> EmptyString -> hex_colour 6 s = false -> hex_colour 3 s = false ->
  exists c, hexToRGB s = Ret (c, Some invalid_format).
Proof.
  intros Hne H6 H3.
  destruct s as [|a0 s]; [congruence|].
  unfold hexToRGB, byte_at. cbn [String.get obind].
  rewrite byte_of_hash.
  destruct (Ascii.eqb a0 "#") eqn:E0; [|eexists; reflexivity].
  cbn [negb].
  destruct s as [|a1 [|a2 [|a3 [|a4 [|a5 [|a6 [|a7 s]]]]]]];
    try (eexists; reflexivity).
  - (* three digits *)
    simpl in H3. rewrite E0, andb_true_r in H3. simpl in H3.
    simpl.
    destruct (hexShort (byte_of a1) None) as [r e1] eqn:E1.
    destruct (hexShort (byte_of a2) e1) as [g e2] eqn:E2.
    destruct (hexShort (byte_of a3) e2) as [b e3] eqn:E3.
    apply (f_equal snd) in E1, E2, E3. rewrite hexShort_err in E1, E2, E3.
    simpl in E1, E2, E3. subst e1 e2 e3.
    eexists. do 2 f_equal.
    destruct (is_hex a1), (is_hex a2), (is_hex a3); try reflexivity; discriminate H3.
  - (* six digits *)
    simpl in H6. rewrite E0, andb_true_r in H6. simpl in H6.
    simpl.
    destruct (hexPair (byte_of a1) (byte_of a2) None) as [r e1] eqn:E1.
    destruct (hexPair (byte_of a3) (byte_of a4) e1) as [g e2] eqn:E2.
    destruct (hexPair (byte_of a5) (byte_of a6) e2) as [b e3] eqn:E3.
    apply (f_equal snd) in E1, E2, E3. rewrite hexPair_err in E1, E2, E3.
    simpl in E1, E2, E3. subst e1 e2 e3.
    eexists. do 2 f_equal.
    destruct (is_hex a1), (is_hex a2), (is_hex a3), (is_hex a4), (is_hex a5),
      (is_hex a6); try reflexivity; discriminate H6.
Qed.

End DecoderRejects.

(** C5: the decoder is to refuse every ill-formed string with the error
    "invalid format", the empty string included.  On the empty string
    the test [s[0] != '#'] runs before any test of the length, and the
    call panics with an index out of range: no error value is returned. *)
Theorem hexToRGB_empty_panics :
  hexToRGB EmptyString = Panic "index out of range" /\
  forall c err, hexToRGB EmptyString <> Ret (c, err).
Proof.
  split; [reflexivity | intros c err; discriminate].
Qed.

(** ** Strings *)

Section Strings.

Lemma append_nil_r (s : string) : s +:+ EmptyString = s.
Proof. induction s; simpl; congruence. Qed.

Lemma append_assoc (s1 s2 s3 : string) :
  (s1 +:+ s2) +:+ s3 = s1 +:+ (s2 +:+ s3).
Proof. induction s1; simpl; congruence. Qed.

Lemma length_append (s1 s2 : string) :
  String.length (s1 +:+ s2) = (String.length s1 + String.length s2)%nat.
Proof. induction s1; simpl; congruence. Qed.

Lemma append_inv_head (w s1 s2 : string) : w +:+ s1 = w +:+ s2 -> s1 = s2.
Proof. induction w; simpl; intros H; [assumption | injection H; auto]. Qed.

Lemma substring_prefix (w s : string) :
  String.substring 0 (String.length w) (w +:+ s) = w.
Proof.
  induction w as [|a w IH]; simpl.
  - destruct s; reflexivity.
  - now rewrite IH.
Qed.

Lemma consumed_append (w s : string) : consumed (w +:+ s) s = w.
Proof.
  unfold consumed. rewrite length_append, Nat.add_sub. apply substring_prefix.
Qed.

Lemma strip_prefix_append (p s : string) : strip_prefix p (p +:+ s) = Some s.
Proof.
  induction p as [|a p IH]; simpl; [reflexivity|].
  now rewrite Ascii.eqb_refl.
Qed.

Lemma strip_prefix_Some (p s t : string) :
  strip_prefix p s = Some t -> s = p +:+ t.
Proof.
  revert s. induction p as [|a p IH]; simpl; intros s H.
  - congruence.
  - destruct s as [|b s]; [discriminate|].
    destruct (Ascii.eqb a b) eqn:E; [|discriminate].
    apply Ascii.eqb_eq in E. subst b. f_equal. now apply IH.
Qed.

Lemma all_chars_append (p : ascii -> bool) (s1 s2 : string) :
  all_chars p (s1 +:+ s2) = all_chars p s1 && all_chars p s2.
Proof.
  induction s1 as [|a s1 IH]; simpl; [reflexivity|].
  now rewrite IH, andb_assoc.
Qed.

(** Two ways to cut one text: one of the first parts is a prefix of the
    other. *)
Lemma append_eq_append (u x v y : string) :
  u +:+ x = v +:+ y ->
  (exists t, v = u +:+ t /\ x = t +:+ y) \/ (exists t, u = v +:+ t /\ y = t +:+ x).
Proof.
  revert v. induction u as [|a u IH]; intros v H; simpl in H.
  - left. exists v. auto.
  - destruct v as [|b v]; simpl in H.
    + right. exists (String a u). auto.
    + injection H as -> H. destruct (IH v H) as [(t & -> & ->)|(t & -> & ->)].
      * left. exists t. auto.
      * right. exists t. auto.
Qed.

End Strings.

(** ** The matcher *)

Section Matcher.

Lemma in_flat_map_iff {X Y : Type} (f : X -> list Y) (l : list X) (y : Y) :
  In y (flat_map f l) <-> exists x, In x l /\ In y (f x).
Proof. apply in_flat_map. Qed.

Lemma plus_loop_sound (r : regex) (body : string * caps -> list (string * caps)) :
  (forall st st', In st' (body st) -> result_of r st st') ->
  forall fuel st st', In st' (plus_loop body fuel st) -> result_of (Plus r) st st'.
Proof.
  intros Hbody. induction fuel as [|fuel IH]; intros st st' Hin; simpl in Hin.
  - destruct Hin.
  - apply in_flat_map_iff in Hin. destruct Hin as (st1 & H1 & Hin).
    destruct (Hbody _ _ H1) as (w1 & c1 & Ew1 & Ec1 & R1).
    apply in_app_or in Hin. destruct Hin as [Hin|Hin].
    + destruct (String.length (fst st1) <? String.length (fst st))%nat;
        [|destruct Hin].
      destruct (IH _ _ Hin) as (w2 & c2 & Ew2 & Ec2 & R2).
      exists (w1 +:+ w2), (c2 ++ c1). repeat split.
      * rewrite Ew1, Ew2. symmetry. apply append_assoc.
      * rewrite Ec2, Ec1. apply List.app_assoc.
      * now apply run_Plus_more.
    + destruct Hin as [<-|[]]. exists w1, c1. repeat split; try assumption.
      now apply run_Plus_one.
Qed.

(** Every result of [exec] is a match of the expression on a prefix of
    the input. *)
Lemma exec_sound (r : regex) :
  forall st st', In st' (exec r st) -> result_of r st st'.
Proof.
  induction r as [|lit|ranges|r1 IH1 r2 IH2|r1 IH1 r2 IH2|r1 IH1|n r1 IH1];
    intros st st' Hin; simpl in Hin.
  - destruct Hin as [<-|[]]. exists EmptyString, []. repeat split. constructor.
  - destruct (strip_prefix lit (fst st)) as [s'|] eqn:E; [|destruct Hin].
    destruct Hin as [<-|[]]. apply strip_prefix_Some in E.
    exists lit, []. repeat split; [assumption | constructor].
  - destruct st as [[|a s] c]; simpl in Hin; [destruct Hin|].
    destruct (in_class ranges a) eqn:E; [|destruct Hin].
    destruct Hin as [<-|[]]. exists (String a EmptyString), [].
    repeat split. now constructor.
  - apply in_flat_map_iff in Hin. destruct Hin as (st1 & H1 & H2).
    destruct (IH1 _ _ H1) as (w1 & c1 & Ew1 & Ec1 & R1).
    destruct (IH2 _ _ H2) as (w2 & c2 & Ew2 & Ec2 & R2).
    exists (w1 +:+ w2), (c2 ++ c1). repeat split.
    + rewrite Ew1, Ew2. symmetry. apply append_assoc.
    + rewrite Ec2, Ec1. apply List.app_assoc.
    + now constructor.
  - apply in_app_or in Hin. destruct Hin as [Hin|Hin].
    + destruct (IH1 _ _ Hin) as (w & c & ? & ? & ?).
      exists w, c. repeat split; try assumption. now apply run_Alt_l.
    + destruct (IH2 _ _ Hin) as (w & c & ? & ? & ?).
      exists w, c. repeat split; try assumption. now apply run_Alt_r.
  - exact (plus_loop_sound r1 (exec r1) IH1 (S (String.length (fst st))) _ _ Hin).
  - apply in_map_iff in Hin. destruct Hin as (st1 & <- & H1).
    destruct (IH1 _ _ H1) as (w & c & Ew & Ec & Rw).
    exists w, ((n, consumed (fst st) (fst st1)) :: c). simpl. repeat split.
    + assumption.
    + f_equal. exact Ec.
    + rewrite Ew, consumed_append. now constructor.
Qed.

(** The bound on the iterations of [r+] is never reached. *)
Lemma plus_loop_fuel (body : string * caps -> list (string * caps)) :
  forall fuel1 fuel2 st,
    (String.length (fst st) < fuel1)%nat -> (String.length (fst st) < fuel2)%nat ->
    plus_loop body fuel1 st = plus_loop body fuel2 st.
Proof.
  induction fuel1 as [|fuel1 IH]; intros fuel2 st H1 H2; [lia|].
  destruct fuel2 as [|fuel2]; [lia|]. simpl.
  induction (body st) as [|st1 l IHl]; simpl; [reflexivity|].
  rewrite IHl. f_equal. f_equal.
  destruct (String.length (fst st1) <? String.length (fst st))%nat eqn:E;
    [|reflexivity].
  apply Nat.ltb_lt in E. apply IH; lia.
Qed.

Lemma exec_Plus_loop (r : regex) (st : string * caps) :
  exec (Plus r) st = plus_loop (exec r) (S (String.length (fst st))) st.
Proof. reflexivity. Qed.

(** [r+] is one [r], then [r+] again if possible. *)
Lemma exec_Plus (r : regex) (st : string * caps) :
  exec (Plus r) st
  = flat_map
      (fun st' =>
         (if (String.length (fst st') <? String.length (fst st))%nat
          then exec (Plus r) st' else []) ++ [st'])
      (exec r st).
Proof.
  rewrite exec_Plus_loop. cbn [plus_loop].
  apply flat_map_ext. intros st1. f_equal.
  destruct (String.length (fst st1) <? String.length (fst st))%nat eqn:E;
    [|reflexivity].
  apply Nat.ltb_lt in E. rewrite exec_Plus_loop. apply plus_loop_fuel; lia.
Qed.

Lemma exec_Plus_none (r : regex) (st : string * caps) :
  exec r st = [] -> exec (Plus r) st = [].
Proof. intros H. rewrite exec_Plus, H. reflexivity. Qed.

(** A text matched by an expression that avoids a character does not
    contain it. *)
Lemma run_avoids (a : ascii) (r : regex) (w : string) (c : caps) :
  run r w c -> regex_avoids a r = true ->
  all_chars (fun b => negb (Ascii.eqb b a)) w = true.
Proof.
  induction 1; simpl; intros Hav; try reflexivity.
  - assumption.
  - rewrite andb_true_r. destruct (Ascii.eqb a0 a) eqn:E; [|reflexivity].
    apply Ascii.eqb_eq in E. subst a0. rewrite H in Hav. discriminate.
  - apply andb_prop in Hav. destruct Hav.
    rewrite all_chars_append, IHrun1, IHrun2 by assumption. reflexivity.
  - apply andb_prop in Hav. destruct Hav. auto.
  - apply andb_prop in Hav. destruct Hav. auto.
  - auto.
  - rewrite all_chars_append, IHrun1, IHrun2 by assumption. reflexivity.
  - auto.
Qed.

End Matcher.

(** ** The pattern [reParseItems] *)

Section Pattern.

Ltac invert H := inversion H; subst; clear H.

Lemma in_class_digit (a : ascii) : in_class [("0", "9")%char] a = is_digit a.
Proof. unfold in_class, in_range, is_digit. simpl. apply orb_false_r. Qed.

Lemma in_class_hex (a : ascii) :
  in_class [("a", "f"); ("A", "F"); ("0", "9")]%char a = is_hex a.
Proof.
  unfold in_class, in_range, is_hex. simpl. rewrite orb_false_r.
  destruct (_ && _)%N, (_ && _)%N, (_ && _)%N; reflexivity.
Qed.

(** The key group matches the alternatives and nothing else. *)
Lemma run_key_alternatives (w : string) (c : caps) :
  run key_alternatives w c -> c = [] /\ is_key w = true.
Proof.
  unfold key_alternatives, Rep. simpl. intros H.
  repeat match goal with
         | H : run (Alt _ _) _ _ |- _ => invert H
         | H : run (Cat _ _) _ _ |- _ => invert H
         | H : run (Str _) _ _ |- _ => invert H
         | H : run Eps _ _ |- _ => invert H
         | H : run (Class _) _ _ |- _ => invert H
         end;
    repeat match goal with
           | H : in_class _ _ = true |- _ => rewrite in_class_digit in H
           end;
    split; try reflexivity; unfold is_key; simpl;
    rewrite ?andb_true_r;
    repeat match goal with H : is_digit _ = true |- _ => rewrite H; clear H end;
    reflexivity.
Qed.

(** After the repeated group, group 1 holds one alternative: the last
    one matched. *)
Lemma run_key_group (w : string) (c : caps) :
  run (Plus (Cap 1 key_alternatives)) w c ->
  exists k c', c = (1%nat, k) :: c' /\ is_key k = true.
Proof.
  intros H. remember (Plus (Cap 1 key_alternatives)) as r eqn:Er.
  induction H; inversion Er; subst.
  - match goal with H : run (Cap _ _) _ _ |- _ => invert H end.
    match goal with H : run key_alternatives _ _ |- _ =>
      apply run_key_alternatives in H; destruct H as [-> Hk] end.
    exists w, []. auto.
  - destruct (IHrun2 eq_refl) as (k & c' & -> & Hk).
    exists k, (c' ++ c1). auto.
Qed.

Lemma run_hex_code (w : string) (c : caps) :
  run hex_code w c -> c = [] /\ hex_colour 6 w = true.
Proof.
  unfold hex_code, Rep. simpl. intros H.
  repeat match goal with
         | H : run (Cat _ _) _ _ |- _ => invert H
         | H : run (Str _) _ _ |- _ => invert H
         | H : run Eps _ _ |- _ => invert H
         | H : run (Class _) _ _ |- _ => invert H
         end.
  repeat match goal with
         | H : in_class _ _ = true |- _ => rewrite in_class_hex in H
         end.
  split; [reflexivity|]. simpl.
  repeat match goal with H : is_hex _ = true |- _ => rewrite H; clear H end.
  reflexivity.
Qed.

Lemma run_spaces (w : string) (c : caps) :
  run (Plus (Str " ")) w c -> c = [].
Proof.
  intros H. remember (Plus (Str " ")) as r eqn:Er.
  induction H; inversion Er; subst.
  - match goal with H : run (Str _) _ _ |- _ => now invert H end.
  - match goal with H : run (Str _) _ _ |- _ => invert H end.
    now rewrite IHrun2.
Qed.

(** The shape of every match of the pattern: a star and a text without
    one; group 1 is a key alternative and group 2 a six-digit colour. *)
Lemma run_reParseItems (w : string) (c : caps) :
  run reParseItems w c ->
  exists w' k h c',
    w = String "*" w' /\ star_free w' = true /\
    c = (2%nat, h) :: (1%nat, k) :: c' /\
    is_key k = true /\ hex_colour 6 h = true.
Proof.
  intros H. unfold reParseItems in H. invert H.
  match goal with H : run (Str _) _ _ |- _ => invert H end.
  match goal with H : run after_star ?w2 _ |- _ =>
    assert (Hfree : star_free w2 = true)
      by (eapply run_avoids; [exact H | reflexivity]);
    unfold after_star in H
  end.
  repeat match goal with
         | H : run (Cat _ _) _ _ |- _ => invert H
         | H : run (Str _) _ _ |- _ => invert H
         | H : run (Cap 2 _) _ _ |- _ => invert H
         end.
  match goal with H : run (Plus (Cap 1 _)) _ _ |- _ =>
    apply run_key_group in H; destruct H as (k & c' & -> & Hk) end.
  match goal with H : run hex_code _ _ |- _ =>
    apply run_hex_code in H; destruct H as [-> Hh] end.
  match goal with H : run (Plus (Str _)) _ _ |- _ =>
    apply run_spaces in H; subst
  end.
  eexists _, k, _, c'.
  repeat split; try eassumption; try reflexivity.
  simpl. rewrite !List.app_nil_r. reflexivity.
Qed.

(** What [match_here] finds. *)
Lemma match_here_reParseItems (s : string) (m : list string) (len : nat) :
  match_here reParseItems s = Some (m, len) ->
  exists w' k h rest,
    m = [String "*" w'; k; h] /\ s = String "*" w' +:+ rest /\
    len = S (String.length w') /\ star_free w' = true /\
    is_key k = true /\ hex_colour 6 h = true.
Proof.
  unfold match_here. intros H.
  destruct (exec reParseItems (s, [])) as [|st l] eqn:E; [discriminate|].
  injection H as <- <-.
  assert (Hin : In st (exec reParseItems (s, []))) by (rewrite E; now left).
  apply exec_sound in Hin. destruct Hin as (w & c & Ew & Ec & Hrun).
  simpl in Ew, Ec. rewrite List.app_nil_r in Ec.
  apply run_reParseItems in Hrun.
  destruct Hrun as (w' & k & h & c' & -> & Hfree & -> & Hk & Hh).
  exists w', k, h, (fst st). unfold submatch_of.
  rewrite Ec, Ew, consumed_append, length_append, Nat.add_sub.
  repeat split; assumption.
Qed.

(** *** The pattern on the text of an assignment

    The first result of a search is what the matcher reports. *)

Lemma hd_flat_map {X Y : Type} (f : X -> list Y) (l : list X) (x : X) (y : Y) :
  hd_error l = Some x -> hd_error (f x) = Some y ->
  hd_error (flat_map f l) = Some y.
Proof.
  destruct l as [|x' l]; [discriminate|]. intros [= ->] Hy. simpl.
  destruct (f x); [discriminate|]. exact Hy.
Qed.

Lemma hd_exec_Cat (r1 r2 : regex) (st st1 st2 : string * caps) :
  hd_error (exec r1 st) = Some st1 -> hd_error (exec r2 st1) = Some st2 ->
  hd_error (exec (Cat r1 r2) st) = Some st2.
Proof. intros H1 H2. exact (hd_flat_map (exec r2) _ _ _ H1 H2). Qed.

Lemma hd_exec_Str (lit s : string) (c : caps) :
  hd_error (exec (Str lit) (lit +:+ s, c)) = Some (s, c).
Proof. cbn [exec fst snd]. now rewrite strip_prefix_append. Qed.

Lemma hd_exec_Cap (n : nat) (r : regex) (w s : string) (c c' : caps) :
  hd_error (exec r (w +:+ s, c)) = Some (s, c') ->
  hd_error (exec (Cap n r) (w +:+ s, c)) = Some (s, (n, w) :: c').
Proof.
  intros H. cbn [exec fst].
  destruct (exec r (w +:+ s, c)) as [|st l]; [discriminate|].
  injection H as ->. cbn [map hd_error fst snd]. now rewrite consumed_append.
Qed.

Lemma hd_exec_Plus_last (r : regex) (st st1 : string * caps) :
  hd_error (exec r st) = Some st1 -> exec (Plus r) st1 = [] ->
  hd_error (exec (Plus r) st) = Some st1.
Proof.
  intros H1 H2. rewrite exec_Plus. eapply hd_flat_map; [exact H1|].
  rewrite H2. now destruct (_ <? _)%nat.
Qed.

Lemma hd_exec_Plus_more (r : regex) (st st1 st2 : string * caps) :
  hd_error (exec r st) = Some st1 ->
  (String.length (fst st1) < String.length (fst st))%nat ->
  hd_error (exec (Plus r) st1) = Some st2 ->
  hd_error (exec (Plus r) st) = Some st2.
Proof.
  intros H1 Hlt H2. rewrite exec_Plus. eapply hd_flat_map; [exact H1|].
  apply Nat.ltb_lt in Hlt. rewrite Hlt.
  destruct (exec (Plus r) st1); [discriminate|]. exact H2.
Qed.

Lemma exec_key_alternatives (k s : string) (c : caps) :
  In k required_keys ->
  hd_error (exec key_alternatives (k +:+ String ":" s, c)) = Some (String ":" s, c).
Proof.
  intros H. unfold required_keys in H. simpl in H.
  repeat (destruct H as [<-|H]; [reflexivity|]). destruct H.
Qed.

Lemma exec_key_group (k s : string) (c : caps) :
  In k required_keys ->
  hd_error (exec (Plus (Cap 1 key_alternatives)) (k +:+ String ":" s, c))
  = Some (String ":" s, (1%nat, k) :: c).
Proof.
  intros H. apply hd_exec_Plus_last.
  - apply hd_exec_Cap. now apply exec_key_alternatives.
  - now apply exec_Plus_none.
Qed.

Lemma exec_spaces (n : nat) (t : string) (c : caps) :
  hd_error (exec (Plus (Str " ")) (String " " (spaces n +:+ String "#" t), c))
  = Some (String "#" t, c).
Proof.
  induction n as [|n IH].
  - apply hd_exec_Plus_last; [|now apply exec_Plus_none].
    exact (hd_exec_Str " " (String "#" t) c).
  - eapply hd_exec_Plus_more; [|..|exact IH].
    + exact (hd_exec_Str " " (String " " (spaces n +:+ String "#" t)) c).
    + simpl. lia.
Qed.

Lemma exec_Cat_single (r1 r2 : regex) (st st1 : string * caps) :
  exec r1 st = [st1] -> exec (Cat r1 r2) st = exec r2 st1.
Proof. intros H. cbn [exec]. rewrite H. cbn [flat_map]. apply List.app_nil_r. Qed.

Lemma exec_rep_exact (ranges : list (ascii * ascii)) (s : string) (c : caps) :
  forall (n : nat) (ds : string),
    String.length ds = n -> all_chars (in_class ranges) ds = true ->
    exec (rep_exact n (Class ranges)) (ds +:+ s, c) = [(s, c)].
Proof.
  induction n as [|n IH]; intros [|a ds] Hlen Hall; try discriminate Hlen.
  - reflexivity.
  - cbn [all_chars] in Hall. apply andb_prop in Hall. destruct Hall as [Ha Hall].
    cbn [rep_exact]. rewrite (exec_Cat_single _ _ _ (ds +:+ s, c)).
    + apply IH; [now injection Hlen | assumption].
    + cbn [exec fst snd String.append]. now rewrite Ha.
Qed.

Lemma all_chars_ext (p q : ascii -> bool) (s : string) :
  (forall a, p a = q a) -> all_chars p s = all_chars q s.
Proof. intros H. induction s as [|a s IH]; simpl; [reflexivity|]. now rewrite H, IH. Qed.

Lemma exec_hex_code (h s : string) (c : caps) :
  hex_colour 6 h = true -> exec hex_code (h +:+ s, c) = [(s, c)].
Proof.
  intros H. destruct h as [|a ds]; [discriminate|]. cbn [hex_colour] in H.
  apply andb_prop in H. destruct H as [H Hall].
  apply andb_prop in H. destruct H as [Ha Hlen].
  apply Ascii.eqb_eq in Ha. subst a. apply Nat.eqb_eq in Hlen.
  unfold hex_code, Rep.
  rewrite (exec_Cat_single _ _ _ (ds +:+ s, c)) by reflexivity.
  rewrite (exec_Cat_single _ _ _ (s, c)); [reflexivity|].
  apply exec_rep_exact; [assumption|].
  rewrite (all_chars_ext _ is_hex); [assumption | apply in_class_hex].
Qed.

(** At the text of an assignment to a key of the table, the pattern
    matches that text, with the key and the colour in its groups. *)
Lemma match_here_assignment (k : string) (n : nat) (h post : string) :
  In k required_keys -> hex_colour 6 h = true ->
  match_here reParseItems (assignment k n h +:+ post)
  = Some ([assignment k n h; k; h], String.length (assignment k n h)).
Proof.
  intros Hk Hh. unfold match_here.
  assert (Hhash : exists t, h = String "#" t).
  { destruct h as [|a t]; [discriminate|]. simpl in Hh.
    destruct (Ascii.eqb a "#") eqn:E; [|discriminate].
    apply Ascii.eqb_eq in E. subst. eauto. }
  destruct Hhash as [t Et].
  assert (E : hd_error (exec reParseItems (assignment k n h +:+ post, []))
              = Some (post, [(2%nat, h); (1%nat, k)])).
  { unfold assignment. rewrite !append_assoc.
    unfold reParseItems, after_star.
    eapply hd_exec_Cat; [exact (hd_exec_Str "*" _ _)|].
    eapply hd_exec_Cat; [exact (hd_exec_Str "." _ _)|].
    eapply hd_exec_Cat; [exact (exec_key_group k _ _ Hk)|].
    eapply hd_exec_Cat; [exact (hd_exec_Str ":" _ _)|].
    eapply hd_exec_Cat.
    - rewrite Et. exact (exec_spaces n (t +:+ post) _).
    - change (String "#" (t +:+ post)) with (String "#" t +:+ post).
      rewrite <- Et. apply hd_exec_Cap. now rewrite exec_hex_code. }
  destruct (exec reParseItems (assignment k n h +:+ post, [])) as [|st l];
    [discriminate|].
  injection E as ->. unfold submatch_of. cbn [fst snd].
  rewrite consumed_append, length_append, Nat.add_sub. reflexivity.
Qed.

End Pattern.

(** ** Scanning a text for the matches *)

Section Scan.

Lemma find_all_skip (r : regex) (w s : string) :
  find_all_from r (w +:+ s) (String.length w) = find_all_from r s 0.
Proof. induction w as [|a w IH]; simpl; [reflexivity | exact IH]. Qed.

Lemma find_all_well_formed (s : string) :
  forall skip, Forall well_formed (find_all_from reParseItems s skip).
Proof.
  induction s as [|a s IH]; intros skip; cbn [find_all_from]; [constructor|].
  destruct skip as [|skip]; [|apply IH].
  destruct (match_here reParseItems (String a s)) as [[m len]|] eqn:E; [|apply IH].
  constructor; [|apply IH].
  apply match_here_reParseItems in E.
  destruct E as (w' & k & h & rest & -> & _ & _ & _ & Hk & Hh).
  exists (String "*" w'), k, h. auto.
Qed.

Lemma star_free_append_star (u t : string) :
  star_free (u +:+ String "*" t) = false.
Proof.
  unfold star_free. rewrite all_chars_append. simpl. apply andb_false_r.
Qed.

(** A match that starts before an assignment ends before it. *)
Lemma match_before_assignment (pre k h post : string) (n len : nat) (ms : list string) :
  match_here reParseItems (pre +:+ assignment k n h +:+ post) = Some (ms, len) ->
  pre <> EmptyString -> (len <= String.length pre)%nat.
Proof.
  intros E Hne. apply match_here_reParseItems in E.
  destruct E as (w' & k' & h' & rest & _ & Es & -> & Hfree & _ & _).
  destruct pre as [|a pre]; [congruence|]. clear Hne.
  simpl in Es. injection Es as -> Es. simpl.
  apply append_eq_append in Es. destruct Es as [(t & -> & Et)|(t & -> & Et)].
  - destruct t as [|b t]; [rewrite append_nil_r; lia|].
    unfold assignment in Et. simpl in Et. injection Et as <- _.
    now rewrite star_free_append_star in Hfree.
  - rewrite length_append. lia.
Qed.

(** The scan of a text that holds an assignment to a key of the table
    finds it, and then goes on after it. *)
Lemma find_all_assignment (k h post : string) (n : nat) :
  In k required_keys -> hex_colour 6 h = true ->
  forall pre skip, (skip <= String.length pre)%nat ->
    exists l,
      find_all_from reParseItems (pre +:+ assignment k n h +:+ post) skip
      = l ++ [assignment k n h; k; h] :: FindAllStringSubmatch reParseItems post.
Proof.
  intros Hk Hh. induction pre as [|a pre IH]; intros skip Hskip.
  - assert (skip = 0%nat) as -> by (simpl in Hskip; lia).
    exists []. cbn [String.append List.app].
    pose proof (match_here_assignment k n h post Hk Hh) as E.
    unfold assignment in *. cbn [String.append] in *.
    cbn [find_all_from]. rewrite E. f_equal.
    cbn [String.length Nat.sub]. apply find_all_skip.
  - cbn [String.append find_all_from].
    destruct skip as [|skip]; [|apply IH; simpl in Hskip; lia].
    destruct (match_here reParseItems (String a (pre +:+ assignment k n h +:+ post)))
      as [[m len]|] eqn:E.
    + apply (match_before_assignment (String a pre) k h post) in E;
        [|discriminate].
      destruct (IH (len - 1)%nat) as [l ->]; [simpl in E; lia|].
      exists (m :: l). reflexivity.
    + apply IH. lia.
Qed.

End Scan.

(** ** The extracted mapping *)

Section Values.

Lemma fill_values_lookup (objects : list (list string)) :
  forall idx vals values,
    fill_values idx objects vals = inr values ->
    forall k, values !! k
              = match last_value k objects with
                | Some h => Some h
                | None => vals !! k
                end.
Proof.
  induction objects as [|v rest IH]; intros idx vals values H k; simpl in H.
  - injection H as ->. reflexivity.
  - destruct v as [|w [|k' [|h [|? ?]]]]; try discriminate H.
    rewrite (IH _ _ _ H k). cbn [last_value].
    destruct (last_value k rest); [reflexivity|].
    rewrite lookup_insert. destruct (String.eqb_spec k' k) as [->|Hne].
    + now rewrite decide_True.
    + now rewrite decide_False.
Qed.

Lemma fill_values_total (objects : list (list string)) :
  Forall well_formed objects ->
  forall idx vals, exists values, fill_values idx objects vals = inr values.
Proof.
  induction 1 as [|v rest (w & k & h & -> & _) _ IH]; intros idx vals; simpl; eauto.
Qed.

(** The loop of lines 90-96 never fails on the matches of the pattern. *)
Lemma fill_values_extracted (text : string) :
  fill_values 0 (FindAllStringSubmatch reParseItems text) ∅ = inr (extracted text).
Proof.
  unfold extracted.
  destruct (fill_values_total (FindAllStringSubmatch reParseItems text)
              (find_all_well_formed text 0) 0%nat ∅) as [values ->].
  reflexivity.
Qed.

Lemma extracted_lookup (text k : string) :
  extracted text !! k = last_value k (FindAllStringSubmatch reParseItems text).
Proof.
  rewrite (fill_values_lookup _ _ _ _ (fill_values_extracted text) k).
  destruct (last_value _ _); [reflexivity | apply lookup_empty].
Qed.

Lemma last_value_In (k h : string) (objects : list (list string)) :
  last_value k objects = Some h -> exists w, In [w; k; h] objects.
Proof.
  induction objects as [|v rest IH]; simpl; [discriminate|].
  destruct (last_value k rest) as [h'|].
  - intros [= ->]. destruct IH as [w Hw]; eauto.
  - destruct v as [|w [|k' [|h' [|? ?]]]]; try discriminate.
    destruct (String.eqb_spec k' k) as [->|]; [|discriminate].
    intros [= ->]. eauto.
Qed.

Lemma last_value_app (k : string) (l1 l2 : list (list string)) :
  last_value k (l1 ++ l2)
  = match last_value k l2 with
    | Some h => Some h
    | None => last_value k l1
    end.
Proof.
  induction l1 as [|v l1 IH]; simpl.
  - now destruct (last_value k l2).
  - rewrite IH. now destruct (last_value k l2).
Qed.

(** Every value of the mapping is ['#'] and six hexadecimal digits. *)
Lemma extracted_hex (text k h : string) :
  extracted text !! k = Some h -> hex_colour 6 h = true.
Proof.
  rewrite extracted_lookup. intros H. apply last_value_In in H.
  destruct H as [w Hw].
  pose proof (find_all_well_formed text 0) as Hall.
  rewrite List.Forall_forall in Hall. apply Hall in Hw.
  destruct Hw as (? & ? & ? & [= <- <- <-] & _ & Hh). exact Hh.
Qed.

(** An assignment in the text gives its key a value. *)
Lemma assigns_extracted (text k : string) :
  In k required_keys -> assigns text k -> is_Some (extracted text !! k).
Proof.
  intros Hk (pre & n & h & post & Hh & ->).
  destruct (find_all_assignment k h post n Hk Hh pre 0%nat) as [l E]; [lia|].
  rewrite extracted_lookup. unfold FindAllStringSubmatch at 1. rewrite E.
  rewrite last_value_app. cbn [last_value]. rewrite String.eqb_refl.
  destruct (last_value k _); eauto.
Qed.

End Values.

(** ** Sorting by name *)

Section Sorting.

Lemma ltb_asym (a b : string) : String.ltb a b = true -> String.ltb b a = false.
Proof.
  unfold String.ltb. rewrite (String.compare_antisym a b).
  now destruct (String.compare b a).
Qed.

Lemma ltb_trans (a b c : string) :
  String.ltb a b = true -> String.ltb b c = true -> String.ltb a c = true.
Proof.
  unfold String.ltb. intros Hab Hbc.
  destruct (String.compare a b) eqn:Eab; try discriminate.
  destruct (String.compare b c) eqn:Ebc; try discriminate.
  apply OrderedTypeEx.String_as_OT.cmp_lt in Eab, Ebc.
  pose proof (OrderedTypeEx.String_as_OT.lt_trans _ _ _ Eab Ebc) as Hac.
  apply OrderedTypeEx.String_as_OT.cmp_lt in Hac.
  unfold OrderedTypeEx.String_as_OT.cmp in Hac. now rewrite Hac.
Qed.

Lemma not_ltb_cases (a b : string) :
  String.ltb b a = false -> a = b \/ String.ltb a b = true.
Proof.
  unfold String.ltb. rewrite (String.compare_antisym a b).
  destruct (String.compare b a) eqn:E; simpl; intros H.
  - left. symmetry. now apply String.compare_eq_iff.
  - discriminate H.
  - now right.
Qed.

Lemma may_precede_trans (x y z : colormatch) :
  may_precede x y -> may_precede y z -> may_precede x z.
Proof.
  unfold may_precede, less. intros Hxy Hyz.
  destruct (not_ltb_cases _ _ Hxy) as [E|Hlt]; [now rewrite E|].
  destruct (not_ltb_cases _ _ Hyz) as [E|Hlt']; [now rewrite <- E|].
  apply ltb_asym. eapply ltb_trans; eassumption.
Qed.

Lemma insert_sorted_perm (x : colormatch) (l : list colormatch) :
  Permutation (insert_sorted x l) (x :: l).
Proof.
  induction l as [|y l IH]; simpl; [reflexivity|].
  destruct (less y x); [|reflexivity].
  rewrite IH. apply perm_swap.
Qed.

Lemma sort_Slice_perm (l : list colormatch) : Permutation (sort_Slice l) l.
Proof.
  induction l as [|x l IH]; simpl; [reflexivity|].
  rewrite insert_sorted_perm. now constructor.
Qed.

Lemma insert_sorted_sorted (x : colormatch) (l : list colormatch) :
  StronglySorted may_precede l -> StronglySorted may_precede (insert_sorted x l).
Proof.
  induction 1 as [|y l Hl IH Hy]; simpl.
  - repeat constructor.
  - destruct (less y x) eqn:E.
    + constructor; [assumption|].
      rewrite List.Forall_forall in *. intros z Hz.
      apply (Permutation_in _ (insert_sorted_perm x l)) in Hz.
      destruct Hz as [<-|Hz]; [|now apply Hy].
      unfold may_precede, less in *. now apply ltb_asym.
    + constructor; [now constructor|].
      constructor; [exact E|].
      rewrite List.Forall_forall in *. intros z Hz.
      eapply may_precede_trans; [exact E | now apply Hy].
Qed.

Lemma sort_Slice_sorted (l : list colormatch) :
  StronglySorted may_precede (sort_Slice l).
Proof.
  induction l as [|x l IH]; simpl; [constructor | now apply insert_sorted_sorted].
Qed.

(** Entries with distinct names have one sorted arrangement. *)
Lemma sorted_unique (l1 l2 : list colormatch) :
  Permutation l1 l2 -> List.NoDup (map name l1) ->
  StronglySorted may_precede l1 -> StronglySorted may_precede l2 -> l1 = l2.
Proof.
  revert l2. induction l1 as [|x1 t1 IH]; intros l2 Hp Hnd H1 H2.
  - apply Permutation_nil in Hp. now subst.
  - destruct l2 as [|x2 t2]; [now apply Permutation_sym, Permutation_nil in Hp|].
    assert (x1 = x2) as ->.
    { apply StronglySorted_inv in H1, H2.
      destruct H1 as [_ H1], H2 as [_ H2]. rewrite List.Forall_forall in H1, H2.
      assert (Hin1 : In x1 (x2 :: t2)) by (eapply Permutation_in; [exact Hp | now left]).
      assert (Hin2 : In x2 (x1 :: t1))
        by (eapply Permutation_in; [symmetry; exact Hp | now left]).
      destruct Hin1 as [->|Hin1]; [reflexivity|].
      destruct Hin2 as [->|Hin2]; [reflexivity|].
      exfalso. pose proof (H2 _ Hin1) as P1. pose proof (H1 _ Hin2) as P2.
      unfold may_precede, less in P1, P2.
      destruct (not_ltb_cases _ _ P1) as [E|Hlt].
      - simpl in Hnd. apply List.NoDup_cons_iff in Hnd. destruct Hnd as [Hnot _].
        apply Hnot. rewrite <- E. now apply in_map.
      - rewrite Hlt in P2. discriminate. }
    f_equal. apply IH.
    + eapply Permutation_cons_inv; exact Hp.
    + simpl in Hnd. now apply List.NoDup_cons_iff in Hnd.
    + now apply StronglySorted_inv in H1.
    + now apply StronglySorted_inv in H2.
Qed.

(** The result of the sort does not depend on the order of its input. *)
Lemma sort_Slice_order (l1 l2 : list colormatch) :
  Permutation l1 l2 -> List.NoDup (map name l2) -> sort_Slice l1 = sort_Slice l2.
Proof.
  intros Hp Hnd. apply sorted_unique; try apply sort_Slice_sorted.
  - now rewrite !sort_Slice_perm.
  - eapply Permutation_NoDup; [|exact Hnd].
    apply Permutation_map. now rewrite sort_Slice_perm.
Qed.

End Sorting.

(** ** The loop over the table *)

Section Resolve.

Lemma add_slots_map (keyItems : list Z) (converted : RGBA) :
  forall kvals,
    add_slots kvals keyItems converted
    = kvals ++ map (fun m => mkColormatch (colorPrefix +:+ itoa m) converted) keyItems.
Proof.
  unfold add_slots. induction keyItems as [|m items IH]; intros kvals; simpl.
  - now rewrite List.app_nil_r.
  - rewrite IH, <- List.app_assoc. reflexivity.
Qed.

(** With six-digit colours in the mapping, the loop runs to its end: it
    collects every key without a value and the entries of the others. *)
Lemma resolve_spec (values : gmap string string) :
  (forall k h, values !! k = Some h -> hex_colour 6 h = true) ->
  forall order notFoundKeys kvals,
    resolve order values notFoundKeys kvals
    = Ret (inr (notFoundKeys ++ missing_keys order values,
                kvals ++ flat_map (entries_of values) order)).
Proof.
  intros Hhex. induction order as [|[k items] rest IH]; intros nf kv.
  - unfold missing_keys. simpl. now rewrite !List.app_nil_r.
  - cbn [resolve]. unfold missing_keys, entries_of at 1.
    cbn [map List.filter flat_map fst snd].
    destruct (values !! k) as [h|] eqn:E.
    + rewrite (hexToRGB_colour_of h (Hhex _ _ E)). cbn [obind fst snd].
      rewrite IH, add_slots_map, <- List.app_assoc. reflexivity.
    + rewrite IH, <- List.app_assoc. reflexivity.
Qed.

Lemma missing_keys_In (order : list (string * list Z)) (values : gmap string string)
    (k : string) :
  In k (missing_keys order values) <-> In k (map fst order) /\ values !! k = None.
Proof.
  unfold missing_keys. rewrite filter_In.
  destruct (values !! k); intuition discriminate.
Qed.

Lemma flat_map_ext_In {X Y : Type} (f g : X -> list Y) (l : list X) :
  (forall x, In x l -> f x = g x) -> flat_map f l = flat_map g l.
Proof.
  induction l as [|x l IH]; intros H; simpl; [reflexivity|].
  rewrite H by now left. rewrite IH; [reflexivity|]. intros y Hy. apply H. now right.
Qed.

Lemma entries_of_present (values : gmap string string) (order : list (string * list Z)) :
  missing_keys order values = [] ->
  flat_map (entries_of values) order
  = flat_map (fun row => map (fun m => mkColormatch (colorPrefix +:+ itoa m)
                                                    (colour_in values (fst row)))
                             (snd row)) order.
Proof.
  intros Hnone. apply flat_map_ext_In. intros [k items] Hin.
  unfold entries_of, colour_in. cbn [fst snd].
  destruct (values !! k) eqn:E; [reflexivity|].
  assert (Hk : In k (missing_keys order values)).
  { apply missing_keys_In. split; [|assumption].
    change k with (fst (k, items)). now apply in_map. }
  rewrite Hnone in Hk. destruct Hk.
Qed.

(** Whatever the order of the iteration, the sorted entries are the
    same 22. *)
Lemma sorted_entries_order (get : string -> RGBA) (order : list (string * list Z)) :
  iteration_order order ->
  sort_Slice (flat_map (fun row => map (fun m => mkColormatch (colorPrefix +:+ itoa m)
                                                          (get (fst row)))
                                   (snd row)) order)
  = sorted_entries get.
Proof.
  intros Hp.
  transitivity
    (sort_Slice (flat_map (fun row => map (fun m => mkColormatch (colorPrefix +:+ itoa m)
                                                             (get (fst row)))
                                      (snd row)) nameReplacements)).
  - apply sort_Slice_order.
    + now apply Permutation_flat_map.
    + vm_compute. repeat (constructor; [simpl; intuition discriminate|]). constructor.
  - reflexivity.
Qed.

(** Any sorted arrangement of the entries is that one: the result does not
    depend on the algorithm behind [sort.Slice]. *)
Lemma sorted_arrangement (get : string -> RGBA) (order : list (string * list Z))
    (l : list colormatch) :
  iteration_order order ->
  Permutation l (flat_map (fun row => map (fun m => mkColormatch (colorPrefix +:+ itoa m)
                                                            (get (fst row)))
                                     (snd row)) order) ->
  StronglySorted may_precede l ->
  l = sorted_entries get.
Proof.
  intros Hord Hp Hs. rewrite <- (sorted_entries_order get order Hord).
  apply sorted_unique; [| |assumption|apply sort_Slice_sorted].
  - now rewrite sort_Slice_perm.
  - apply (Permutation_NoDup (l := map name (sorted_entries get))).
    + apply Permutation_map.
      rewrite <- (sorted_entries_order get order Hord), sort_Slice_perm.
      now symmetry.
    + vm_compute. repeat (constructor; [simpl; intuition discriminate|]). constructor.
Qed.

End Resolve.

(** ** The text of the output *)

Section Output.

Lemma lines_line (l rest : string) :
  no_nl l = true -> lines (l +:+ nl +:+ rest) = l :: lines rest.
Proof.
  induction l as [|a l IH]; intros H.
  - reflexivity.
  - unfold no_nl in H. cbn [all_chars] in H.
    apply andb_prop in H. destruct H as [Ha Hl].
    cbn [String.append lines].
    apply negb_true_iff in Ha. rewrite Ha. now rewrite (IH Hl).
Qed.

Lemma safe_quote_char (a : ascii) :
  safe a = true -> quote_char a = String a EmptyString.
Proof.
  destruct a as [[] [] [] [] [] [] [] []]; intros H; try discriminate H; reflexivity.
Qed.

Lemma safe_no_nl (s : string) : all_chars safe s = true -> no_nl s = true.
Proof.
  unfold no_nl. induction s as [|a s IH]; cbn [all_chars]; [reflexivity|].
  intros H. apply andb_prop in H. destruct H as [Ha Hs].
  rewrite (IH Hs), andb_true_r.
  destruct a as [[] [] [] [] [] [] [] []]; try discriminate Ha; reflexivity.
Qed.

Lemma quote_safe (s : string) :
  all_chars safe s = true -> quote s = String dquote (s +:+ String dquote EmptyString).
Proof.
  intros H. unfold quote. do 2 f_equal.
  induction s as [|a s IH]; simpl; [reflexivity|].
  simpl in H. apply andb_prop in H. destruct H as [Ha Hs].
  rewrite (safe_quote_char a Ha), (IH Hs). reflexivity.
Qed.

Lemma string_of_uint_safe (d : Decimal.uint) :
  all_chars safe (NilEmpty.string_of_uint d) = true.
Proof. induction d; simpl; auto. Qed.

Lemma itoa_safe (z : Z) : all_chars safe (itoa z) = true.
Proof.
  unfold itoa. destruct z as [|p|p]; simpl; [reflexivity|..];
    unfold NilZero.string_of_uint.
  - destruct (Pos.to_uint p) eqn:E; try reflexivity;
      rewrite <- E; apply string_of_uint_safe.
  - destruct (Pos.to_uint p) eqn:E; try reflexivity;
      rewrite <- E; apply string_of_uint_safe.
Qed.

Lemma getRGB_safe (cm : colormatch) : all_chars safe (getRGB cm) = true.
Proof.
  unfold getRGB. rewrite !all_chars_append, !itoa_safe. reflexivity.
Qed.

(** The line of an entry whose name is plain is ["name"="R,G,B"]. *)
Lemma entry_line_text (cm : colormatch) :
  all_chars safe (name cm) = true ->
  entry_line cm = entry_text cm +:+ nl /\ no_nl (entry_text cm) = true.
Proof.
  intros Hn. unfold entry_line, entry_text.
  rewrite (quote_safe _ Hn), (quote_safe _ (getRGB_safe cm)). split.
  - repeat (progress (cbn [String.append]; rewrite ?append_assoc)). reflexivity.
  - unfold no_nl. cbn [all_chars String.append].
    rewrite !all_chars_append. cbn [all_chars].
    pose proof (safe_no_nl _ Hn) as H1. pose proof (safe_no_nl _ (getRGB_safe cm)) as H2.
    unfold no_nl in H1, H2. rewrite !all_chars_append, H1, H2. reflexivity.
Qed.

Lemma entry_lines_from (kvals : list colormatch) :
  forall b,
    fold_left (fun b cm => b +:+ entry_line cm) kvals b
    = b +:+ fold_right (fun cm acc => entry_line cm +:+ acc) EmptyString kvals.
Proof.
  induction kvals as [|cm kvals IH]; intros b; simpl.
  - now rewrite append_nil_r.
  - rewrite IH, append_assoc. reflexivity.
Qed.

Lemma lines_entries (kvals : list colormatch) (rest : string) :
  Forall (fun cm => all_chars safe (name cm) = true) kvals ->
  lines (entry_lines kvals +:+ rest) = map entry_text kvals ++ lines rest.
Proof.
  unfold entry_lines. rewrite entry_lines_from. cbn [String.append].
  induction 1 as [|cm kvals Hcm _ IH]; [reflexivity|].
  cbn [fold_right map List.app].
  destruct (entry_line_text cm Hcm) as [-> Hnl].
  rewrite !append_assoc. rewrite (lines_line _ _ Hnl). now rewrite IH.
Qed.

Lemma hex_byte_no_nl (a : ascii) : no_nl (hex_byte true a) = true.
Proof. destruct a as [[] [] [] [] [] [] [] []]; reflexivity. Qed.

Lemma PathEscape_no_nl (s : string) : no_nl (PathEscape s) = true.
Proof.
  induction s as [|a s IH]; [reflexivity|].
  cbn [PathEscape]. unfold no_nl in *. rewrite all_chars_append, IH, andb_true_r.
  destruct (shouldEscape a) eqn:E.
  - cbn [all_chars]. apply (hex_byte_no_nl a).
  - destruct a as [[] [] [] [] [] [] [] []]; try discriminate E; reflexivity.
Qed.

Lemma lines_header (sname rest : string) :
  lines (header sname +:+ rest) = header_lines sname ++ lines rest.
Proof.
  unfold header_lines.
  set (banner := "Windows Registry Editor Version 5.00").
  set (section := "[HKEY_CURRENT_USER\Software\9bis.com\KiTTY\Sessions\"
                  +:+ PathEscape sname +:+ "]").
  assert (E : header sname +:+ rest
              = banner +:+ nl +:+ EmptyString +:+ nl +:+ section +:+ nl +:+ rest).
  { unfold header, banner, section.
    repeat (progress (cbn [String.append]; rewrite ?append_assoc)). reflexivity. }
  rewrite E. clear E.
  rewrite (lines_line banner) by reflexivity.
  rewrite (lines_line EmptyString) by reflexivity.
  rewrite (lines_line section); [reflexivity|].
  unfold section, no_nl. rewrite !all_chars_append.
  pose proof (PathEscape_no_nl sname) as H. unfold no_nl in H. rewrite H. reflexivity.
Qed.

(** The lines of the output: the header, the entries, a blank line. *)
Lemma lines_output (sname : string) (kvals : list colormatch) :
  Forall (fun cm => all_chars safe (name cm) = true) kvals ->
  lines (header sname +:+ entry_lines kvals +:+ nl)
  = header_lines sname ++ map entry_text kvals ++ [EmptyString].
Proof.
  intros H. rewrite lines_header, lines_entries by assumption. reflexivity.
Qed.

Lemma entry_text_line_text (cm : colormatch) : entry_text cm = line_text cm.
Proof.
  unfold entry_text, line_text, quoted, getRGB.
  repeat (progress (cbn [String.append]; rewrite ?append_assoc)). reflexivity.
Qed.

(** The same lines, each spelled out. *)
Lemma lines_output_spelled (sname : string) (kvals : list colormatch) :
  Forall (fun cm => all_chars safe (name cm) = true) kvals ->
  lines (header sname +:+ entry_lines kvals +:+ nl)
  = header_lines sname ++ map line_text kvals ++ [EmptyString].
Proof.
  intros H. rewrite (lines_output sname kvals H). do 2 f_equal.
  apply map_ext. exact entry_text_line_text.
Qed.

Lemma sorted_entries_safe (get : string -> RGBA) :
  Forall (fun cm => all_chars safe (name cm) = true) (sorted_entries get).
Proof. unfold sorted_entries. repeat constructor. Qed.

End Output.

(** ** The program as a whole *)

Section Program.

Variable fs : string -> file_result.
Variable order : list (string * list Z).

(** What [app] does, stage by stage: neither the defensive test of
    line 91 nor the decoder ever stops it. *)
Lemma app_spec (args : list string) :
  app args fs order
  = match args with
    | [fname; sname] =>
        if String.eqb sname EmptyString then ([], Ret (Some ErrSessionName)) else
        match fs fname with
        | OpenFails msg => ([OsOpen fname], Ret (Some (ErrOpen fname msg)))
        | ReadFails msg =>
            ([OsOpen fname; FileClose fname], Ret (Some (ErrRead fname msg)))
        | Contents text =>
            match FindAllStringSubmatch reParseItems text with
            | [] => ([OsOpen fname; FileClose fname], Ret (Some (ErrNoColorCodes fname)))
            | _ :: _ =>
                match missing_keys order (extracted text) with
                | [] =>
                    ([OsOpen fname;
                      Stdout (header sname
                              +:+ entry_lines
                                    (sort_Slice (flat_map (entries_of (extracted text)) order))
                              +:+ nl);
                      FileClose fname], Ret None)
                | k :: ks =>
                    ([OsOpen fname; FileClose fname],
                     Ret (Some (ErrKeysNotFound (k :: ks))))
                end
            end
        end
    | _ => ([], Ret (Some ErrUsage))
    end.
Proof.
  unfold app.
  destruct args as [|fname [|sname [|? ?]]]; try reflexivity.
  destruct (String.eqb sname EmptyString); [reflexivity|].
  destruct (fs fname) as [msg|msg|text]; try reflexivity.
  rewrite fill_values_extracted.
  rewrite (resolve_spec _ (extracted_hex text)).
  destruct (FindAllStringSubmatch reParseItems text) as [|m ms]; [reflexivity|].
  cbn [length Nat.eqb List.app].
  destruct (missing_keys order (extracted text)) as [|k ks]; simpl.
  - rewrite !append_assoc. reflexivity.
  - reflexivity.
Qed.

Lemma missing_keys_none (values : gmap string string) :
  (forall k, In k (map fst order) -> is_Some (values !! k)) <->
  missing_keys order values = [].
Proof.
  split.
  - intros H. destruct (missing_keys order values) as [|k ks] eqn:E; [reflexivity|].
    assert (Hk : In k (missing_keys order values)) by (rewrite E; now left).
    apply missing_keys_In in Hk. destruct Hk as [Hk Hnone].
    destruct (H k Hk) as [h Hh]. congruence.
  - intros H k Hk. destruct (values !! k) eqn:E; [eauto|].
    assert (Hin : In k (missing_keys order values))
      by (apply missing_keys_In; auto).
    rewrite H in Hin. destruct Hin.
Qed.

(** A run that ends with status 0 went through every stage, and its
    sorted entries are the 22 of [sorted_entries]. *)
Lemma success_inv (args : list string) :
  iteration_order order ->
  exit_status (main args fs order) = 0 ->
  exists fname sname text,
    args = [fname; sname] /\ fs fname = Contents text /\
    missing_keys order (extracted text) = [] /\
    main args fs order
    = mkProcess
        [OsOpen fname;
         Stdout (header sname
                 +:+ entry_lines (sorted_entries (colour_in (extracted text)))
                 +:+ nl);
         FileClose fname] 0.
Proof.
  intros Hord. unfold main. rewrite app_spec.
  destruct args as [|fname [|sname [|? ?]]]; try discriminate.
  destruct (String.eqb sname EmptyString); [discriminate|].
  destruct (fs fname) as [msg|msg|text] eqn:Efs; try discriminate.
  destruct (FindAllStringSubmatch reParseItems text); [discriminate|].
  destruct (missing_keys order (extracted text)) eqn:E; [|discriminate].
  intros _. exists fname, sname, text.
  split; [reflexivity|]. split; [exact Efs|]. split; [exact E|].
  rewrite (entries_of_present _ _ E).
  rewrite (sorted_entries_order (colour_in (extracted text)) order Hord).
  reflexivity.
Qed.

End Program.

Section Runs.

Variable fs : string -> file_result.
Variable order : list (string * list Z).
Hypothesis Horder : iteration_order order.

Lemma order_keys (k : string) : In k (map fst order) <-> In k required_keys.
Proof.
  unfold required_keys.
  split; apply Permutation_in; [|symmetry]; apply Permutation_map; exact Horder.
Qed.

(** A run on a file that gives every key a value. *)
Lemma run_complete (fname sname text : string) :
  sname <> EmptyString -> fs fname = Contents text ->
  (forall k, In k required_keys -> is_Some (extracted text !! k)) ->
  main [fname; sname] fs order
  = mkProcess
      [OsOpen fname;
       Stdout (header sname
               +:+ entry_lines (sorted_entries (colour_in (extracted text)))
               +:+ nl);
       FileClose fname] 0.
Proof.
  intros Hs Hfs Hall. unfold main. rewrite app_spec.
  apply String.eqb_neq in Hs. rewrite Hs, Hfs.
  assert (Hnone : missing_keys order (extracted text) = []).
  { apply missing_keys_none. intros k Hk. apply Hall. now apply order_keys. }
  destruct (FindAllStringSubmatch reParseItems text) eqn:E.
  - exfalso. destruct (Hall "foreground") as [h Hh]; [vm_compute; auto|].
    rewrite extracted_lookup, E in Hh. discriminate Hh.
  - rewrite Hnone, (entries_of_present _ _ Hnone).
    rewrite (sorted_entries_order (colour_in (extracted text)) order Horder).
    reflexivity.
Qed.

(** A run on a file that leaves a key without a value. *)
Lemma run_incomplete (fname sname text k : string) :
  sname <> EmptyString -> fs fname = Contents text ->
  FindAllStringSubmatch reParseItems text <> [] ->
  In k required_keys -> extracted text !! k = None ->
  app [fname; sname] fs order
  = ([OsOpen fname; FileClose fname],
     Ret (Some (ErrKeysNotFound (missing_keys order (extracted text))))).
Proof.
  intros Hs Hfs Hobj Hk Hnone. rewrite app_spec.
  apply String.eqb_neq in Hs. rewrite Hs, Hfs.
  destruct (FindAllStringSubmatch reParseItems text); [congruence|].
  destruct (missing_keys order (extracted text)) eqn:E; [|reflexivity].
  assert (Hin : In k (missing_keys order (extracted text))).
  { apply missing_keys_In. split; [now apply order_keys | assumption]. }
  rewrite E in Hin. destruct Hin.
Qed.

End Runs.

Lemma scheme_text_assigns (get : string -> string) (keys : list string) (k : string) :
  In k keys -> hex_colour 6 (get k) = true -> assigns (scheme_text get keys) k.
Proof.
  intros Hin Hh. induction keys as [|k0 keys IH]; [destruct Hin|].
  cbn [scheme_text fold_right]. destruct Hin as [->|Hin].
  - exists EmptyString, 0%nat, (get k), (nl +:+ scheme_text get keys). auto.
  - destruct (IH Hin) as (pre & n & h & post & Hh' & E).
    exists (assignment k0 0 (get k0) +:+ nl +:+ pre), n, h, post. split; [assumption|].
    unfold scheme_text in E. rewrite E, !append_assoc. reflexivity.
Qed.

Lemma sample_scheme_assigns (k : string) :
  In k required_keys -> assigns sample_scheme k.
Proof.
  intros Hk. apply scheme_text_assigns; [assumption|].
  vm_compute in Hk. repeat (destruct Hk as [<-|Hk]; [reflexivity|]). destruct Hk.
Qed.

(** C1: when the file holds a six-digit assignment for each of the 19
    keys and the session name is not empty, the run ends with status 0
    and writes the three lines of the header, then the 22 lines
    ["ColourN"="R,G,B"] in the byte-wise order of their names (so
    [Colour10] stands before [Colour2]), then an empty line.  Each line
    is spelled out by [line_text]: the name between double quotes, [=],
    and between double quotes the decimal values of the three channels
    of the colour of its key, with commas between them. *)
Theorem complete_scheme_output (fname sname text : string)
    (fs : string -> file_result) (order : list (string * list Z)) :
  iteration_order order ->
  sname <> EmptyString ->
  fs fname = Contents text ->
  (forall k, In k required_keys -> assigns text k) ->
  let kvals := sorted_entries (colour_in (extracted text)) in
  exists out,
    main [fname; sname] fs order
    = mkProcess [OsOpen fname; Stdout out; FileClose fname] 0 /\
    out = header sname +:+ entry_lines kvals +:+ nl /\
    lines out = header_lines sname ++ map line_text kvals ++ [EmptyString] /\
    length kvals = 22%nat /\
    map name kvals
    = map (fun n => colorPrefix +:+ itoa n)
          [0; 1; 10; 11; 12; 13; 14; 15; 16; 17; 18; 19; 2; 20; 21; 3; 4; 5; 6; 7; 8; 9] /\
    StronglySorted (fun x y => String.ltb (name x) (name y) = true) kvals.
Proof.
  intros Hord Hs Hfs Hall kvals.
  exists (header sname +:+ entry_lines kvals +:+ nl). repeat split.
  - apply run_complete; try assumption.
    intros k Hk. apply assigns_extracted; auto.
  - apply lines_output_spelled, sorted_entries_safe.
  - unfold kvals, sorted_entries.
    repeat (constructor; [|repeat (constructor; [reflexivity|]); constructor]).
    constructor.
Qed.

Lemma complete_scheme_output_witness :
  exists out,
    main ["colors"; "My Session"] (one_file sample_scheme) nameReplacements
    = mkProcess [OsOpen "colors"; Stdout out; FileClose "colors"] 0 /\
    out = header "My Session"
          +:+ entry_lines (sorted_entries (colour_in (extracted sample_scheme))) +:+ nl /\
    lines out
    = header_lines "My Session"
      ++ map line_text (sorted_entries (colour_in (extracted sample_scheme)))
      ++ [EmptyString] /\
    length (sorted_entries (colour_in (extracted sample_scheme))) = 22%nat /\
    map name (sorted_entries (colour_in (extracted sample_scheme)))
    = map (fun n => colorPrefix +:+ itoa n)
          [0; 1; 10; 11; 12; 13; 14; 15; 16; 17; 18; 19; 2; 20; 21; 3; 4; 5; 6; 7; 8; 9] /\
    StronglySorted (fun x y => String.ltb (name x) (name y) = true)
                   (sorted_entries (colour_in (extracted sample_scheme))).
Proof.
  apply (complete_scheme_output "colors" "My Session" sample_scheme
           (one_file sample_scheme) nameReplacements).
  - apply Permutation_refl.
  - discriminate.
  - reflexivity.
  - exact sample_scheme_assigns.
Defined.

(** C2: when a key of the table has no value in the extracted mapping,
    the run fails with one error whose message lists, joined by commas,
    every key without a value (the loop goes through all 19 keys), and
    nothing is written to the standard output. *)
Theorem missing_keys_error (fname sname text k : string)
    (fs : string -> file_result) (order : list (string * list Z)) :
  iteration_order order ->
  sname <> EmptyString ->
  fs fname = Contents text ->
  FindAllStringSubmatch reParseItems text <> [] ->
  In k required_keys -> extracted text !! k = None ->
  let notFoundKeys := missing_keys order (extracted text) in
  snd (app [fname; sname] fs order) = Ret (Some (ErrKeysNotFound notFoundKeys)) /\
  (forall k', In k' notFoundKeys <-> In k' required_keys /\ extracted text !! k' = None) /\
  main [fname; sname] fs order
  = mkProcess
      [OsOpen fname; FileClose fname;
       Stderr ("Error: the following keys weren't found in the config file: "
               +:+ Join notFoundKeys ", " +:+ nl)] 1 /\
  stdout_of (trace (main [fname; sname] fs order)) = EmptyString.
Proof.
  intros Hord Hs Hfs Hobj Hk Hnone notFoundKeys.
  pose proof (run_incomplete fs order Hord fname sname text k Hs Hfs Hobj Hk Hnone) as E.
  assert (Hmain : main [fname; sname] fs order
                  = mkProcess
                      [OsOpen fname; FileClose fname;
                       Stderr ("Error: the following keys weren't found in the config file: "
                               +:+ Join notFoundKeys ", " +:+ nl)] 1).
  { unfold main. rewrite E. cbn [Error List.app]. rewrite !append_assoc. reflexivity. }
  split; [now rewrite E|]. split; [|split; [exact Hmain | now rewrite Hmain]].
  intros k'. unfold notFoundKeys. rewrite missing_keys_In.
  now rewrite (order_keys order Hord).
Qed.

Lemma missing_keys_error_witness :
  snd (app ["colors"; "s"] (one_file sample_incomplete) (rev nameReplacements))
  = Ret (Some (ErrKeysNotFound ["color7"; "color3"])) /\
  (forall k', In k' ["color7"; "color3"] <->
              In k' required_keys /\ extracted sample_incomplete !! k' = None) /\
  main ["colors"; "s"] (one_file sample_incomplete) (rev nameReplacements)
  = mkProcess
      [OsOpen "colors"; FileClose "colors";
       Stderr ("Error: the following keys weren't found in the config file: "
               +:+ "color7, color3" +:+ nl)] 1 /\
  stdout_of (trace (main ["colors"; "s"] (one_file sample_incomplete)
                         (rev nameReplacements))) = EmptyString.
Proof.
  apply (missing_keys_error "colors" "s" sample_incomplete "color3"
           (one_file sample_incomplete) (rev nameReplacements)).
  - exact (Permutation_sym (Permutation_rev nameReplacements)).
  - discriminate.
  - reflexivity.
  - vm_compute. discriminate.
  - vm_compute. tauto.
  - vm_compute. reflexivity.
Defined.

(** C8: with any number of arguments other than two the run fails with
    the usage error and status 1, whatever the file system holds; no
    file is opened and nothing is written to the standard output. *)
Theorem usage_error (args : list string) (fs : string -> file_result)
    (order : list (string * list Z)) :
  length args <> 2%nat ->
  main args fs order = mkProcess [Stderr ("Error: " +:+ Error ErrUsage +:+ nl)] 1 /\
  snd (app args fs order) = Ret (Some ErrUsage) /\
  opened (trace (main args fs order)) = [] /\
  stdout_of (trace (main args fs order)) = EmptyString.
Proof.
  intros Hlen.
  assert (E : app args fs order = ([], Ret (Some ErrUsage))).
  { destruct args as [|a [|b [|c args]]]; try reflexivity. now contradict Hlen. }
  unfold main. rewrite E. repeat split.
Qed.

Lemma usage_error_witness :
  (main ["colors"] (one_file sample_scheme) nameReplacements
   = mkProcess [Stderr ("Error: " +:+ Error ErrUsage +:+ nl)] 1 /\
   snd (app ["colors"] (one_file sample_scheme) nameReplacements) = Ret (Some ErrUsage) /\
   opened (trace (main ["colors"] (one_file sample_scheme) nameReplacements)) = [] /\
   stdout_of (trace (main ["colors"] (one_file sample_scheme) nameReplacements))
   = EmptyString) /\
  (main ["colors"; "s"; "more"] (one_file sample_scheme) nameReplacements
   = mkProcess [Stderr ("Error: " +:+ Error ErrUsage +:+ nl)] 1 /\
   snd (app ["colors"; "s"; "more"] (one_file sample_scheme) nameReplacements)
   = Ret (Some ErrUsage) /\
   opened (trace (main ["colors"; "s"; "more"] (one_file sample_scheme) nameReplacements))
   = [] /\
   stdout_of (trace (main ["colors"; "s"; "more"] (one_file sample_scheme) nameReplacements))
   = EmptyString).
Proof.
  split.
  - apply (usage_error ["colors"] (one_file sample_scheme) nameReplacements).
    simpl. lia.
  - apply (usage_error ["colors"; "s"; "more"] (one_file sample_scheme) nameReplacements).
    simpl. lia.
Defined.

(** C9: the strings that [app] gives to the decoder are values of the
    extracted mapping, so each is ['#'] and six hexadecimal digits and
    decodes without error: the loop over the table runs to its end, and
    [app] neither returns the error "unable to parse hex color" nor
    panics. *)
Theorem hex_error_unreachable (args : list string) (fs : string -> file_result)
    (order : list (string * list Z)) :
  (forall text k h,
      extracted text !! k = Some h ->
      hex_colour 6 h = true /\ hexToRGB h = Ret (colour_of h, None)) /\
  (forall text notFoundKeys kvals,
      resolve order (extracted text) notFoundKeys kvals
      = Ret (inr (notFoundKeys ++ missing_keys order (extracted text),
                  kvals ++ flat_map (entries_of (extracted text)) order))) /\
  (forall hexColor msg, snd (app args fs order) <> Ret (Some (ErrHexColor hexColor msg))) /\
  (forall msg, snd (app args fs order) <> Panic msg).
Proof.
  split; [|split].
  - intros text k h H. pose proof (extracted_hex _ _ _ H) as Hh.
    split; [exact Hh | now apply hexToRGB_colour_of].
  - intros text nf kv. apply resolve_spec, extracted_hex.
  - rewrite app_spec.
    destruct args as [|fname [|sname [|? ?]]]; try (split; intros; discriminate).
    destruct (String.eqb sname EmptyString); [split; intros; discriminate|].
    destruct (fs fname); try (split; intros; discriminate).
    destruct (FindAllStringSubmatch reParseItems text);
      [split; intros; discriminate|].
    destruct (missing_keys order (extracted text)); split; intros; discriminate.
Qed.



(** C10: the lists of slots of the table have no slot in common and
    hold exactly the integers from 0 to 21; hence every run that
    succeeds writes 22 entries in which each of the names [Colour0] to
    [Colour21] occurs exactly once. *)
Theorem slots_exactly_once :
  List.NoDup slots /\
  (forall m, In m slots <-> 0 <= m <= 21) /\
  forall args fs order,
    iteration_order order ->
    exit_status (main args fs order) = 0 ->
    exists sname kvals,
      stdout_of (trace (main args fs order))
      = header sname +:+ entry_lines kvals +:+ nl /\
      lines (stdout_of (trace (main args fs order)))
      = header_lines sname ++ map entry_text kvals ++ [EmptyString] /\
      length kvals = 22%nat /\
      forall m, 0 <= m <= 21 ->
                count_occ string_dec (map name kvals) (colorPrefix +:+ itoa m) = 1%nat.
Proof.
  assert (Hslots : forall m, In m slots <-> 0 <= m <= 21).
  { intros m. unfold slots. simpl. split; [intuition lia | lia]. }
  split; [|split; [exact Hslots|]].
  - unfold slots. simpl.
    repeat (constructor; [simpl; intuition discriminate|]). constructor.
  - intros args fs order Hord Hok.
    destruct (success_inv fs order args Hord Hok)
      as (fname & sname & text & -> & Hfs & _ & Hmain).
    exists sname, (sorted_entries (colour_in (extracted text))).
    rewrite Hmain. cbn [trace stdout_of]. rewrite append_nil_r.
    split; [reflexivity|]. split; [apply lines_output, sorted_entries_safe|].
    split; [reflexivity|].
    intros m Hm. apply Hslots in Hm. unfold slots in Hm. simpl in Hm.
    repeat (destruct Hm as [<-|Hm]; [reflexivity|]). destruct Hm.
Qed.

Lemma slots_exactly_once_witness :
  exists sname kvals,
    stdout_of (trace (main ["colors"; "My Session"] (one_file sample_scheme)
                           (rev nameReplacements)))
    = header sname +:+ entry_lines kvals +:+ nl /\
    lines (stdout_of (trace (main ["colors"; "My Session"] (one_file sample_scheme)
                                  (rev nameReplacements))))
    = header_lines sname ++ map entry_text kvals ++ [EmptyString] /\
    length kvals = 22%nat /\
    forall m, 0 <= m <= 21 ->
              count_occ string_dec (map name kvals) (colorPrefix +:+ itoa m) = 1%nat.
Proof.
  apply (proj2 (proj2 slots_exactly_once)).
  - exact (Permutation_sym (Permutation_rev nameReplacements)).
  - vm_compute. reflexivity.
Defined.

(** C7: a key token that is no alternative of the key group is to give
    no pair.  The group is repeated ([(...)+]), so the pattern also
    matches a run of alternatives and captures the last one: the line
    below gives [background] the colour [#123456]. *)
Theorem concatenated_keys_extracted :
  is_key "foregroundbackground" = false /\
  FindAllStringSubmatch reParseItems "*.foregroundbackground: #123456"
  = [["*.foregroundbackground: #123456"; "background"; "#123456"]] /\
  extracted "*.foregroundbackground: #123456" !! "background" = Some "#123456".
Proof.
  split; [reflexivity|]. split; [reflexivity|]. vm_compute. reflexivity.
Qed.

(** ** Worked examples *)

(** A digit outside the class sets the error after the channels of the
    good digits are computed. *)
Example hexToRGB_bad_digit :
  hexToRGB "#8g2" = Ret (mkRGBA 136 0 34 255, Some invalid_format).
Proof. reflexivity. Qed.

Example hexToRGB_no_hash :
  hexToRGB "1a2b3c" = Ret (mkRGBA 0 0 0 255, Some invalid_format).
Proof. reflexivity. Qed.

Example hexToRGB_five_digits :
  hexToRGB "#1a2b3" = Ret (mkRGBA 0 0 0 255, Some invalid_format).
Proof. reflexivity. Qed.

(** The scan keeps to six digits, wants a digit count of one or two, and
    finds a match in the middle of a line. *)
Example scan_lines :
  FindAllStringSubmatch reParseItems
    "*.color12:   #FFFFFFF *.color123: #123456 x*.color1: #abcdef *.color2:#000000"
  = [["*.color12:   #FFFFFF"; "color12"; "#FFFFFF"];
     ["*.color1: #abcdef"; "color1"; "#abcdef"]].
Proof. reflexivity. Qed.

(** A later assignment of a key replaces an earlier one. *)
Example last_assignment_wins :
  extracted "*.color1: #000000 *.color1: #ffffff" !! "color1" = Some "#ffffff".
Proof. vm_compute. reflexivity. Qed.

(** The lines that the sample scheme gives, as the program writes them. *)
Example sample_output_lines :
  lines (stdout_of (trace (main ["colors"; "My Session"] (one_file sample_scheme)
                                nameReplacements)))
  = [ "Windows Registry Editor Version 5.00";
      EmptyString;
      "[HKEY_CURRENT_USER\Software\9bis.com\KiTTY\Sessions\My%20Session]" ]
    ++ map (fun e => quoted (fst e) +:+ "=" +:+ quoted (snd e))
         [ ("Colour0", "26,43,60"); ("Colour1", "26,43,60");
           ("Colour10", "138,43,226"); ("Colour11", "138,43,226");
           ("Colour12", "138,43,226"); ("Colour13", "138,43,226");
           ("Colour14", "138,43,226"); ("Colour15", "138,43,226");
           ("Colour16", "138,43,226"); ("Colour17", "138,43,226");
           ("Colour18", "138,43,226"); ("Colour19", "138,43,226");
           ("Colour2", "0,0,0"); ("Colour20", "138,43,226");
           ("Colour21", "255,0,171"); ("Colour3", "0,0,0");
           ("Colour4", "255,255,255"); ("Colour5", "255,255,255");
           ("Colour6", "138,43,226"); ("Colour7", "138,43,226");
           ("Colour8", "138,43,226"); ("Colour9", "138,43,226") ]
    ++ [EmptyString].
Proof. vm_compute. reflexivity. Qed.

Example PathEscape_session : PathEscape "My Session/x" = "My%20Session%2Fx".
Proof. reflexivity. Qed.

(** A file without any assignment. *)
Example run_no_colours :
  main ["colors"; "s"] (one_file "! nothing here") nameReplacements
  = mkProcess
      [OsOpen "colors"; FileClose "colors";
       Stderr ("Error: " +:+ Error (ErrNoColorCodes "colors") +:+ nl)] 1.
Proof. reflexivity. Qed.

Example run_no_file :
  main ["other"; "s"] (one_file sample_scheme) nameReplacements
  = mkProcess
      [OsOpen "other";
       Stderr ("Error: " +:+ Error (ErrOpen "other" "open: no such file or directory") +:+ nl)]
      1.
Proof. reflexivity. Qed.

(** * Further properties *)

(** ** The decoder on any string *)

Section DecoderMore.

Lemma hexToRGB_short_colour (s : string) :
  hex_colour 3 s = true -> exists c, hexToRGB s = Ret (c, None).
Proof.
  intros H.
  destruct s as [|a0 [|a1 [|a2 [|a3 [|a4 s]]]]];
    try discriminate H; simpl in H; rewrite ?andb_false_r in H; try discriminate H.
  rewrite andb_true_r in H.
  repeat (apply andb_prop in H; destruct H as [? H]).
  match goal with H : Ascii.eqb _ _ = true |- _ => apply Ascii.eqb_eq in H; subst end.
  unfold hexToRGB, byte_at; simpl.
  rewrite (hexShort_hex a1), (hexShort_hex a2), (hexShort_hex a3) by assumption.
  eexists. reflexivity.
Qed.

Lemma hexToByte_small (b : Z) (err : option string) :
  0 <= fst (hexToByte b err) <= 15.
Proof.
  unfold hexToByte, wrap8, byte_of. simpl.
  repeat match goal with
         | |- context [if ?c then _ else _] => destruct c eqn:?
         end; simpl;
    repeat match goal with
           | H : (_ && _) = true |- _ => apply andb_prop in H; destruct H
           | H : (_ <=? _) = true |- _ => apply Z.leb_le in H
           end; try lia.
  - rewrite Z.mod_small by lia. lia.
  - rewrite (Z.mod_small (b - 97)) by lia. rewrite Z.mod_small by lia. lia.
  - rewrite (Z.mod_small (b - 65)) by lia. rewrite Z.mod_small by lia. lia.
Qed.

Lemma hexPair_byte (x y : Z) (err : option string) :
  0 <= fst (hexPair x y err) <= 255.
Proof.
  unfold hexPair. destruct (hexToByte x err) as [hi e1].
  destruct (hexToByte y e1) as [lo e2]. cbn [fst]. unfold wrap8.
  pose proof (Z.mod_pos_bound (Z.shiftl hi 4 mod 256 + lo) 256). lia.
Qed.

Lemma hexShort_byte (x : Z) (err : option string) :
  0 <= fst (hexShort x err) <= 255.
Proof.
  unfold hexShort. destruct (hexToByte x err) as [d e1]. cbn [fst]. unfold wrap8.
  pose proof (Z.mod_pos_bound (d * 17) 256). lia.
Qed.

Lemma hexShort_double (a : ascii) (err : option string) :
  hexShort (byte_of a) err = hexPair (byte_of a) (byte_of a) err.
Proof. destruct a as [[] [] [] [] [] [] [] []]; reflexivity. Qed.

Lemma hexToByte_upper (a : ascii) (err : option string) :
  hexToByte (byte_of (hex_upper a)) err = hexToByte (byte_of a) err.
Proof. destruct a as [[] [] [] [] [] [] [] []]; reflexivity. Qed.

Lemma hash_upper (a : ascii) :
  (byte_of (hex_upper a) =? byte_of "#") = (byte_of a =? byte_of "#").
Proof. destruct a as [[] [] [] [] [] [] [] []]; reflexivity. Qed.

Lemma length_map_chars (f : ascii -> ascii) (s : string) :
  String.length (map_chars f s) = String.length s.
Proof. induction s; simpl; congruence. Qed.

End DecoderMore.

(** X1: the decoder returns a colour and no error exactly on ['#'] followed
    by six or by three hexadecimal digits. *)
Theorem hexToRGB_accepts_exactly (s : string) :
  (exists c, hexToRGB s = Ret (c, None)) <->
  hex_colour 6 s = true \/ hex_colour 3 s = true.
Proof.
  split.
  - intros [c Hc].
    destruct (hex_colour 6 s) eqn:E6; [now left|].
    destruct (hex_colour 3 s) eqn:E3; [now right|].
    destruct s as [|a s]; [discriminate Hc|].
    destruct (hexToRGB_rejects (String a s)) as [c' Hc']; try assumption; [discriminate|].
    rewrite Hc in Hc'. discriminate Hc'.
  - intros [H|H].
    + exists (colour_of s). now apply hexToRGB_colour_of.
    + now apply hexToRGB_short_colour.
Qed.

(** X2: on every string but the empty one that is not ['#'] and six or
    three hexadecimal digits (no ['#'] in front, another length, a
    character that is no digit), the decoder returns the error "invalid
    format". *)
Theorem hexToRGB_invalid_format (s : string) :
  s <> EmptyString -> hex_colour 6 s = false -> hex_colour 3 s = false ->
  exists c, hexToRGB s = Ret (c, Some "invalid format").
Proof. exact (hexToRGB_rejects s). Qed.

Lemma hexToRGB_invalid_format_witness :
  (exists c, hexToRGB "#12345g" = Ret (c, Some "invalid format")) /\
  (exists c, hexToRGB "1a2b3c" = Ret (c, Some "invalid format")) /\
  (exists c, hexToRGB "#1a2b3c4d" = Ret (c, Some "invalid format")).
Proof.
  split; [|split].
  - apply (hexToRGB_invalid_format "#12345g"); [discriminate | reflexivity | reflexivity].
  - apply (hexToRGB_invalid_format "1a2b3c"); [discriminate | reflexivity | reflexivity].
  - apply (hexToRGB_invalid_format "#1a2b3c4d"); [discriminate | reflexivity | reflexivity].
Defined.

(** X3: the decoder panics on the empty string and on no other. *)
Theorem hexToRGB_panics_only_empty (s : string) :
  (exists msg, hexToRGB s = Panic msg) <-> s = EmptyString.
Proof.
  split.
  - intros [msg H]. destruct s as [|a s]; [reflexivity|]. exfalso.
    destruct (hex_colour 6 (String a s)) eqn:E6.
    { rewrite (hexToRGB_colour_of _ E6) in H. discriminate H. }
    destruct (hex_colour 3 (String a s)) eqn:E3.
    { destruct (hexToRGB_short_colour _ E3) as [c Hc]. rewrite Hc in H. discriminate H. }
    destruct (hexToRGB_rejects (String a s)) as [c Hc]; try assumption; [discriminate|].
    rewrite Hc in H. discriminate H.
  - intros ->. eexists. reflexivity.
Qed.

(** X4: whatever the decoder returns, with or without an error, each
    channel is a byte and alpha is 0xff. *)
Theorem hexToRGB_channels (s : string) (c : RGBA) (err : option string) :
  hexToRGB s = Ret (c, err) ->
  0 <= R c <= 255 /\ 0 <= G c <= 255 /\ 0 <= B c <= 255 /\ A c = 255.
Proof.
  unfold hexToRGB, byte_at. destruct s as [|a0 s]; [discriminate|].
  cbn [String.get obind].
  destruct (negb (byte_of a0 =? byte_of "#")).
  { intros [= <- _]. simpl. lia. }
  destruct s as [|a1 [|a2 [|a3 [|a4 [|a5 [|a6 [|a7 s]]]]]]];
    try (intros [= <- _]; simpl; lia).
  - simpl.
    pose proof (hexShort_byte (byte_of a1) None) as H1.
    destruct (hexShort (byte_of a1) None) as [r e1].
    pose proof (hexShort_byte (byte_of a2) e1) as H2.
    destruct (hexShort (byte_of a2) e1) as [g e2].
    pose proof (hexShort_byte (byte_of a3) e2) as H3.
    destruct (hexShort (byte_of a3) e2) as [b e3].
    intros [= <- _]. simpl in *. lia.
  - simpl.
    pose proof (hexPair_byte (byte_of a1) (byte_of a2) None) as H1.
    destruct (hexPair (byte_of a1) (byte_of a2) None) as [r e1].
    pose proof (hexPair_byte (byte_of a3) (byte_of a4) e1) as H2.
    destruct (hexPair (byte_of a3) (byte_of a4) e1) as [g e2].
    pose proof (hexPair_byte (byte_of a5) (byte_of a6) e2) as H3.
    destruct (hexPair (byte_of a5) (byte_of a6) e2) as [b e3].
    intros [= <- _]. simpl in *. lia.
Qed.

Lemma hexToRGB_channels_witness :
  hexToRGB "#8g2" = Ret (mkRGBA 136 0 34 255, Some invalid_format) /\
  (0 <= 136 <= 255 /\ 0 <= 0 <= 255 /\ 0 <= 34 <= 255 /\ 255 = 255).
Proof.
  split; [reflexivity|].
  exact (hexToRGB_channels "#8g2" (mkRGBA 136 0 34 255) (Some invalid_format) eq_refl).
Defined.

(** X5: the short form [#abc] decodes as the long form [#aabbcc], for
    any three characters: the same channels and the same error. *)
Theorem hexToRGB_short_is_doubled (a b c : ascii) :
  hexToRGB (String "#" (String a (String b (String c EmptyString))))
  = hexToRGB (String "#" (String a (String a (String b (String b
                                    (String c (String c EmptyString))))))).
Proof.
  unfold hexToRGB, byte_at. simpl.
  rewrite hexShort_double. destruct (hexPair (byte_of a) (byte_of a) None) as [r e1].
  rewrite hexShort_double. destruct (hexPair (byte_of b) (byte_of b) e1) as [g e2].
  rewrite hexShort_double. reflexivity.
Qed.

(** X6: the decoder does not tell the case of the letters [a]-[f] apart:
    writing them in upper case changes nothing of the result. *)
Theorem hexToRGB_ignores_case (s : string) :
  hexToRGB (map_chars hex_upper s) = hexToRGB s.
Proof.
  unfold hexToRGB. rewrite length_map_chars.
  destruct s as [|a0 s]; [reflexivity|].
  unfold byte_at. cbn [map_chars String.get obind]. rewrite hash_upper.
  destruct (negb (byte_of a0 =? byte_of "#")); [reflexivity|].
  destruct s as [|a1 [|a2 [|a3 [|a4 [|a5 [|a6 [|a7 s]]]]]]]; try reflexivity.
  - simpl. unfold hexShort.
    rewrite (hexToByte_upper a1). destruct (hexToByte (byte_of a1) None) as [d1 e1].
    rewrite (hexToByte_upper a2). destruct (hexToByte (byte_of a2) e1) as [d2 e2].
    rewrite (hexToByte_upper a3). reflexivity.
  - simpl. unfold hexPair.
    rewrite (hexToByte_upper a1). destruct (hexToByte (byte_of a1) None) as [d1 e1].
    rewrite (hexToByte_upper a2). destruct (hexToByte (byte_of a2) e1) as [d2 e2].
    rewrite (hexToByte_upper a3). destruct (hexToByte (byte_of a3) e2) as [d3 e3].
    rewrite (hexToByte_upper a4). destruct (hexToByte (byte_of a4) e3) as [d4 e4].
    rewrite (hexToByte_upper a5). destruct (hexToByte (byte_of a5) e4) as [d5 e5].
    rewrite (hexToByte_upper a6). reflexivity.
Qed.

(** ** The extractor on any text *)

Section ExtractorMore.

Ltac invert H := inversion H; subst; clear H.

Lemma run_key_group_shape (w : string) (c : caps) :
  run (Plus (Cap 1 key_alternatives)) w c ->
  exists ks k c',
    w = fold_right String.append EmptyString ks +:+ k /\
    Forall (fun x => is_key x = true) ks /\
    c = (1%nat, k) :: c' /\ is_key k = true.
Proof.
  intros H. remember (Plus (Cap 1 key_alternatives)) as r eqn:Er.
  induction H; inversion Er; subst.
  - match goal with H : run (Cap _ _) _ _ |- _ => invert H end.
    match goal with H : run key_alternatives _ _ |- _ =>
      apply run_key_alternatives in H; destruct H as [-> Hk] end.
    exists [], w, []. auto.
  - destruct (IHrun2 eq_refl) as (ks & k & c' & -> & Hks & -> & Hk).
    match goal with H : run (Cap _ _) _ _ |- _ => invert H end.
    match goal with H : run key_alternatives _ _ |- _ =>
      apply run_key_alternatives in H; destruct H as [-> Hk1] end.
    exists (w1 :: ks), k, (c' ++ [(1%nat, w1)]). cbn [fold_right].
    rewrite append_assoc. auto.
Qed.

Lemma run_spaces_shape (w : string) (c : caps) :
  run (Plus (Str " ")) w c -> exists n, w = spaces (S n).
Proof.
  intros H. remember (Plus (Str " ")) as r eqn:Er.
  induction H; inversion Er; subst.
  - match goal with H : run (Str _) _ _ |- _ => invert H end. now exists 0%nat.
  - match goal with H : run (Str _) _ _ |- _ => invert H end.
    destruct (IHrun2 eq_refl) as [n ->]. now exists (S n).
Qed.

Lemma run_reParseItems_shape (w : string) (c : caps) :
  run reParseItems w c ->
  exists ks k n h c',
    w = "*." +:+ (fold_right String.append EmptyString ks +:+ k) +:+ ":"
        +:+ spaces (S n) +:+ h /\
    Forall (fun x => is_key x = true) ks /\
    c = (2%nat, h) :: (1%nat, k) :: c' /\
    is_key k = true /\ hex_colour 6 h = true.
Proof.
  intros H. unfold reParseItems, after_star in H.
  repeat match goal with
         | H : run (Cat _ _) _ _ |- _ => invert H
         | H : run (Str _) _ _ |- _ => invert H
         | H : run (Cap 2 _) _ _ |- _ => invert H
         end.
  match goal with H : run (Plus (Cap 1 _)) _ _ |- _ =>
    apply run_key_group_shape in H; destruct H as (ks & k & c' & -> & Hks & -> & Hk) end.
  match goal with H : run (Plus (Str _)) _ _ |- _ =>
    pose proof (run_spaces _ _ H); apply run_spaces_shape in H; destruct H as [n ->]; subst
  end.
  match goal with H : run hex_code ?h _ |- _ =>
    apply run_hex_code in H; destruct H as [-> Hh]; exists ks, k, n, h, c'
  end.
  repeat split; try assumption.
  simpl. rewrite !List.app_nil_r. reflexivity.
Qed.

(** A match of the scan is the match of the pattern at some place of the
    text. *)
Lemma find_all_occurs (r : regex) (s : string) :
  forall skip m,
    In m (find_all_from r s skip) ->
    exists pre post len, s = pre +:+ post /\ match_here r post = Some (m, len).
Proof.
  induction s as [|a s IH]; intros skip m Hin; cbn [find_all_from] in Hin;
    [destruct Hin|].
  assert (Hrec : forall k, In m (find_all_from r s k) ->
                           exists pre post len,
                             String a s = pre +:+ post /\ match_here r post = Some (m, len)).
  { intros k Hk. destruct (IH k m Hk) as (pre & post & len & -> & E).
    exists (String a pre), post, len. auto. }
  destruct skip as [|skip]; [|now apply (Hrec skip)].
  destruct (match_here r (String a s)) as [[m' len]|] eqn:E; [|now apply (Hrec 0%nat)].
  destruct Hin as [<-|Hin]; [|now apply (Hrec (len - 1)%nat)].
  exists EmptyString, (String a s), len. auto.
Qed.

Lemma match_here_shape (s : string) (m : list string) (len : nat) :
  match_here reParseItems s = Some (m, len) ->
  exists ks k n h rest,
    let w := "*." +:+ (fold_right String.append EmptyString ks +:+ k) +:+ ":"
             +:+ spaces (S n) +:+ h in
    s = w +:+ rest /\ m = [w; k; h] /\
    Forall (fun x => is_key x = true) ks /\ is_key k = true /\ hex_colour 6 h = true.
Proof.
  unfold match_here. intros H.
  destruct (exec reParseItems (s, [])) as [|st l] eqn:E; [discriminate|].
  injection H as <- <-.
  assert (Hin : In st (exec reParseItems (s, []))) by (rewrite E; now left).
  apply exec_sound in Hin. destruct Hin as (w & c & Ew & Ec & Hrun).
  simpl in Ew, Ec. rewrite List.app_nil_r in Ec.
  apply run_reParseItems_shape in Hrun.
  destruct Hrun as (ks & k & n & h & c' & -> & Hks & -> & Hk & Hh).
  exists ks, k, n, h, (fst st). cbv zeta. unfold submatch_of.
  rewrite Ec, Ew, consumed_append. repeat split; assumption.
Qed.

Lemma star_free_no_match (s : string) :
  star_free s = true -> match_here reParseItems s = None.
Proof.
  intros Hfree. destruct (match_here reParseItems s) as [[m len]|] eqn:E; [|reflexivity].
  apply match_here_reParseItems in E.
  destruct E as (w' & k & h & rest & _ & -> & _). discriminate Hfree.
Qed.

Lemma star_free_no_matches (s : string) :
  star_free s = true -> forall skip, find_all_from reParseItems s skip = [].
Proof.
  induction s as [|a s IH]; intros Hfree skip; [reflexivity|].
  cbn [find_all_from].
  assert (Hs : star_free s = true).
  { unfold star_free in *. cbn [all_chars] in Hfree. now apply andb_prop in Hfree. }
  destruct skip; [|now apply IH].
  rewrite (star_free_no_match _ Hfree). now apply IH.
Qed.

End ExtractorMore.

(** X7: every submatch that the scan of a text returns has three parts:
    a piece of the text made of [*.], a run of key alternatives, a colon,
    one or more spaces and ['#'] with six hexadecimal digits; the last
    alternative of the run; and the seven characters of the colour. *)
Theorem submatch_shape (text : string) (m : list string) :
  In m (FindAllStringSubmatch reParseItems text) ->
  exists pre ks k n h post,
    let w := "*." +:+ (fold_right String.append EmptyString ks +:+ k) +:+ ":"
             +:+ spaces (S n) +:+ h in
    text = pre +:+ w +:+ post /\ m = [w; k; h] /\
    Forall (fun x => is_key x = true) ks /\ is_key k = true /\ hex_colour 6 h = true.
Proof.
  intros Hin. apply find_all_occurs in Hin.
  destruct Hin as (pre & s & len & -> & E).
  apply match_here_shape in E.
  destruct E as (ks & k & n & h & rest & -> & -> & Hks & Hk & Hh).
  exists pre, ks, k, n, h, rest. cbv zeta. auto.
Qed.

Lemma submatch_shape_witness :
  exists pre ks k n h post,
    "! x *.color1color22:   #abcdef0" = pre +:+ ("*." +:+ (fold_right String.append EmptyString ks +:+ k) +:+ ":"
             +:+ spaces (S n) +:+ h) +:+ post /\
    ["*.color1color22:   #abcdef"; "color22"; "#abcdef"]
    = ["*." +:+ (fold_right String.append EmptyString ks +:+ k) +:+ ":"
             +:+ spaces (S n) +:+ h; k; h] /\
    Forall (fun x => is_key x = true) ks /\ is_key k = true /\ hex_colour 6 h = true.
Proof.
  apply (submatch_shape "! x *.color1color22:   #abcdef0"
           ["*.color1color22:   #abcdef"; "color22"; "#abcdef"]).
  vm_compute. left. reflexivity.
Defined.



(** ** Runs of the program *)

Section RunsMore.

Lemma filter_none {X : Type} (p : X -> bool) (l : list X) :
  (forall x, In x l -> p x = false) -> List.filter p l = [].
Proof.
  induction l as [|x l IH]; intros H; simpl; [reflexivity|].
  rewrite (H x) by now left. apply IH. intros y Hy. apply H. now right.
Qed.

Lemma filter_single {X : Type} (p : X -> bool) (k : X) (l : list X) :
  List.NoDup l -> In k l -> p k = true ->
  (forall x, In x l -> x <> k -> p x = false) ->
  List.filter p l = [k].
Proof.
  induction 1 as [|x l Hx Hnd IH]; intros Hin Hk Hother; [destruct Hin|].
  simpl. destruct Hin as [->|Hin].
  - rewrite Hk. f_equal. apply filter_none. intros y Hy.
    apply Hother; [now right|]. intros ->. contradiction.
  - rewrite (Hother x); [|now left|intros ->; contradiction].
    apply IH; try assumption. intros y Hy. apply Hother. now right.
Qed.

Lemma required_keys_NoDup : List.NoDup required_keys.
Proof.
  vm_compute. repeat (constructor; [simpl; intuition discriminate|]). constructor.
Qed.

Lemma missing_keys_agree (order : list (string * list Z))
    (values1 values2 : gmap string string) :
  (forall k, In k (map fst order) -> values1 !! k = values2 !! k) ->
  missing_keys order values1 = missing_keys order values2 /\
  flat_map (entries_of values1) order = flat_map (entries_of values2) order.
Proof.
  intros H. split.
  - unfold missing_keys. induction (map fst order) as [|k l IH]; [reflexivity|].
    simpl. rewrite (H k) by now left. rewrite IH; [reflexivity|].
    intros k' Hk'. apply H. now right.
  - apply flat_map_ext_In. intros [k items] Hin. unfold entries_of. cbn [fst snd].
    rewrite (H k); [reflexivity|]. change k with (fst (k, items)). now apply in_map.
Qed.

Lemma entry_text_quoted (cm : colormatch) :
  entry_text cm = quoted (name cm) +:+ "=" +:+ quoted (getRGB cm).
Proof.
  unfold entry_text, quoted.
  repeat (progress (cbn [String.append]; rewrite ?append_assoc)). reflexivity.
Qed.

Lemma string_of_uint_digits (d : Decimal.uint) :
  all_chars is_digit (NilEmpty.string_of_uint d) = true.
Proof. induction d; simpl; auto. Qed.

Lemma digits_no_comma (s : string) :
  all_chars is_digit s = true ->
  all_chars (fun a => negb (Ascii.eqb a ",")) s = true.
Proof.
  induction s as [|a s IH]; cbn [all_chars]; [reflexivity|].
  intros H. apply andb_prop in H. destruct H as [Ha Hs]. rewrite (IH Hs), andb_true_r.
  destruct a as [[] [] [] [] [] [] [] []]; try discriminate Ha; reflexivity.
Qed.

Lemma itoa_no_comma (z : Z) :
  all_chars (fun a => negb (Ascii.eqb a ",")) (itoa z) = true.
Proof.
  unfold itoa. destruct z as [|p|p]; simpl; [reflexivity|..];
    unfold NilZero.string_of_uint.
  - destruct (Pos.to_uint p) eqn:E; try reflexivity;
      rewrite <- E; apply digits_no_comma, string_of_uint_digits.
  - destruct (Pos.to_uint p) eqn:E; try reflexivity;
      rewrite <- E; apply digits_no_comma, string_of_uint_digits.
Qed.

Lemma itoa_inj (z1 z2 : Z) : itoa z1 = itoa z2 -> z1 = z2.
Proof.
  unfold itoa. intros H.
  assert (Hnn : forall z, Z.to_int z <> Decimal.Pos Decimal.Nil /\
                          Z.to_int z <> Decimal.Neg Decimal.Nil).
  { intros [|p|p]; simpl; split; try discriminate;
      intros [= E]; now apply DecimalPos.Unsigned.to_uint_nonnil in E. }
  apply (f_equal NilZero.int_of_string) in H.
  rewrite !NilZero.isi in H by apply Hnn.
  injection H as H. apply (f_equal Z.of_int) in H.
  now rewrite !DecimalZ.of_to in H.
Qed.

Lemma split_at_comma (u v x y : string) :
  all_chars (fun a => negb (Ascii.eqb a ",")) u = true ->
  all_chars (fun a => negb (Ascii.eqb a ",")) v = true ->
  u +:+ String "," x = v +:+ String "," y -> u = v /\ x = y.
Proof.
  revert v. induction u as [|a u IH]; intros [|b v] Hu Hv H;
    cbn [String.append all_chars] in *.
  - injection H as ->. auto.
  - injection H as <- _. discriminate Hv.
  - injection H as -> _. discriminate Hu.
  - injection H as -> H.
    apply andb_prop in Hu. destruct Hu as [_ Hu].
    apply andb_prop in Hv. destruct Hv as [_ Hv].
    destruct (IH v Hu Hv H) as [-> ->]. auto.
Qed.

End RunsMore.

(** X9: a file without any star has no assignment: the run fails with
    "no color codes found" after closing the file, and writes no
    output.  The empty file is one such file.  (The message quotes the
    file name, taken in ASCII.) *)
Theorem no_star_no_colours (fname sname text : string)
    (fs : string -> file_result) (order : list (string * list Z)) :
  ascii_text fname = true ->
  star_free text = true -> sname <> EmptyString -> fs fname = Contents text ->
  FindAllStringSubmatch reParseItems text = [] /\
  main [fname; sname] fs order
  = mkProcess
      [OsOpen fname; FileClose fname;
       Stderr ("Error: file " +:+ quote fname
               +:+ " format is invalid: no color codes found" +:+ nl)] 1.
Proof.
  intros _ Hfree Hs Hfs.
  pose proof (star_free_no_matches text Hfree 0%nat) as E.
  split; [exact E|].
  unfold main. rewrite app_spec. apply String.eqb_neq in Hs.
  unfold FindAllStringSubmatch. rewrite Hs, Hfs, E. cbn [Error List.app].
  rewrite !append_assoc. reflexivity.
Qed.

Lemma no_star_no_colours_witness :
  (FindAllStringSubmatch reParseItems EmptyString = [] /\
   main ["colors"; "s"] (one_file EmptyString) nameReplacements
   = mkProcess
       [OsOpen "colors"; FileClose "colors";
        Stderr ("Error: file " +:+ quote "colors"
                +:+ " format is invalid: no color codes found" +:+ nl)] 1) /\
  (FindAllStringSubmatch reParseItems "URxvt.color1: #123456" = [] /\
   main ["colors"; "s"] (one_file "URxvt.color1: #123456") nameReplacements
   = mkProcess
       [OsOpen "colors"; FileClose "colors";
        Stderr ("Error: file " +:+ quote "colors"
                +:+ " format is invalid: no color codes found" +:+ nl)] 1).
Proof.
  split.
  - apply (no_star_no_colours "colors" "s" EmptyString (one_file EmptyString)
             nameReplacements); [reflexivity | reflexivity | discriminate | reflexivity].
  - apply (no_star_no_colours "colors" "s" "URxvt.color1: #123456"
             (one_file "URxvt.color1: #123456") nameReplacements);
      [reflexivity | reflexivity | discriminate | reflexivity].
Defined.

(** X10: [app] returns nil or one of six errors: usage, empty session
    name, open, read, no colour codes, keys not found (with at least one
    key).  The error of the defensive test of line 91 and the error of
    the decoder are never returned, and [app] never panics. *)
Theorem app_outcomes (args : list string) (fs : string -> file_result)
    (order : list (string * list Z)) :
  let r := snd (app args fs order) in
  r = Ret None \/ r = Ret (Some ErrUsage) \/ r = Ret (Some ErrSessionName) \/
  (exists fname msg, r = Ret (Some (ErrOpen fname msg))) \/
  (exists fname msg, r = Ret (Some (ErrRead fname msg))) \/
  (exists fname, r = Ret (Some (ErrNoColorCodes fname))) \/
  (exists k ks, r = Ret (Some (ErrKeysNotFound (k :: ks)))).
Proof.
  cbv zeta. rewrite app_spec.
  destruct args as [|fname [|sname [|? ?]]]; try (right; left; reflexivity).
  destruct (String.eqb sname EmptyString); [right; right; left; reflexivity|].
  destruct (fs fname) as [msg|msg|text].
  - do 3 right. left. eauto.
  - do 4 right. left. eauto.
  - destruct (FindAllStringSubmatch reParseItems text).
    + do 5 right. left. eauto.
    + destruct (missing_keys order (extracted text)).
      * left. reflexivity.
      * do 6 right. eauto.
Qed.

(** X11: a run is all or nothing.  Its status is 0 or 1; with status 0
    it wrote the output and nothing to the standard error; with status 1
    it wrote nothing to the standard output and, once, the message of
    its error after [Error:] to the standard error.  (Some messages
    quote the file name, taken in ASCII.) *)
Theorem all_or_nothing (args : list string) (fs : string -> file_result)
    (order : list (string * list Z)) :
  (forall fname sname, args = [fname; sname] -> ascii_text fname = true) ->
  let p := main args fs order in
  (exit_status p = 0 /\ stderr_of (trace p) = EmptyString /\
   stdout_of (trace p) <> EmptyString /\ snd (app args fs order) = Ret None) \/
  (exit_status p = 1 /\ stdout_of (trace p) = EmptyString /\
   exists e, snd (app args fs order) = Ret (Some e) /\
             stderr_of (trace p) = "Error: " +:+ Error e +:+ nl).
Proof.
  intros _. cbv zeta. unfold main. rewrite app_spec.
  assert (Herr : forall evs e,
             stdout_of evs = EmptyString -> stderr_of evs = EmptyString ->
             stdout_of (evs ++ [Stderr ("Error: " +:+ Error e +:+ nl)]) = EmptyString /\
             stderr_of (evs ++ [Stderr ("Error: " +:+ Error e +:+ nl)])
             = "Error: " +:+ Error e +:+ nl).
  { induction evs as [|[f|f|t|t] evs IH]; intros e Ho He; simpl in *;
      try (now apply IH).
    - now rewrite append_nil_r.
    - destruct t; [|discriminate Ho]. now apply IH.
    - destruct t; [|discriminate He]. now apply IH. }
  destruct args as [|fname [|sname [|? ?]]];
    try (right; cbn [exit_status trace snd]; split; [reflexivity|];
         destruct (Herr [] ErrUsage eq_refl eq_refl) as [Ho He];
         split; [exact Ho | exists ErrUsage; split; [reflexivity | exact He]]).
  destruct (String.eqb sname EmptyString).
  { right. cbn [exit_status trace snd]. split; [reflexivity|].
    destruct (Herr [] ErrSessionName eq_refl eq_refl) as [Ho He].
    split; [exact Ho | exists ErrSessionName; split; [reflexivity | exact He]]. }
  destruct (fs fname) as [msg|msg|text].
  - right. cbn [exit_status trace snd]. split; [reflexivity|].
    destruct (Herr [OsOpen fname] (ErrOpen fname msg) eq_refl eq_refl) as [Ho He].
    split; [exact Ho | eexists; split; [reflexivity | exact He]].
  - right. cbn [exit_status trace snd]. split; [reflexivity|].
    destruct (Herr [OsOpen fname; FileClose fname] (ErrRead fname msg) eq_refl eq_refl)
      as [Ho He].
    split; [exact Ho | eexists; split; [reflexivity | exact He]].
  - destruct (FindAllStringSubmatch reParseItems text).
    + right. cbn [exit_status trace snd]. split; [reflexivity|].
      destruct (Herr [OsOpen fname; FileClose fname] (ErrNoColorCodes fname)
                  eq_refl eq_refl) as [Ho He].
      split; [exact Ho | eexists; split; [reflexivity | exact He]].
    + destruct (missing_keys order (extracted text)) as [|k ks].
      * left. cbn [exit_status trace snd stderr_of stdout_of].
        repeat split. unfold header. cbn [String.append]. discriminate.
      * right. cbn [exit_status trace snd]. split; [reflexivity|].
        destruct (Herr [OsOpen fname; FileClose fname] (ErrKeysNotFound (k :: ks))
                    eq_refl eq_refl) as [Ho He].
        split; [exact Ho | eexists; split; [reflexivity | exact He]].
Qed.

Lemma all_or_nothing_witness :
  ((exit_status (main ["colors"; "s"] (one_file sample_scheme) nameReplacements) = 0 /\
    stderr_of (trace (main ["colors"; "s"] (one_file sample_scheme) nameReplacements))
    = EmptyString /\
    stdout_of (trace (main ["colors"; "s"] (one_file sample_scheme) nameReplacements))
    <> EmptyString /\
    snd (app ["colors"; "s"] (one_file sample_scheme) nameReplacements) = Ret None) \/
   (exit_status (main ["colors"; "s"] (one_file sample_scheme) nameReplacements) = 1 /\
    stdout_of (trace (main ["colors"; "s"] (one_file sample_scheme) nameReplacements))
    = EmptyString /\
    exists e, snd (app ["colors"; "s"] (one_file sample_scheme) nameReplacements)
              = Ret (Some e) /\
              stderr_of (trace (main ["colors"; "s"] (one_file sample_scheme)
                                     nameReplacements))
              = "Error: " +:+ Error e +:+ nl)) /\
  ((exit_status (main ["other"; "s"] (one_file sample_scheme) nameReplacements) = 0 /\
    stderr_of (trace (main ["other"; "s"] (one_file sample_scheme) nameReplacements))
    = EmptyString /\
    stdout_of (trace (main ["other"; "s"] (one_file sample_scheme) nameReplacements))
    <> EmptyString /\
    snd (app ["other"; "s"] (one_file sample_scheme) nameReplacements) = Ret None) \/
   (exit_status (main ["other"; "s"] (one_file sample_scheme) nameReplacements) = 1 /\
    stdout_of (trace (main ["other"; "s"] (one_file sample_scheme) nameReplacements))
    = EmptyString /\
    exists e, snd (app ["other"; "s"] (one_file sample_scheme) nameReplacements)
              = Ret (Some e) /\
              stderr_of (trace (main ["other"; "s"] (one_file sample_scheme)
                                     nameReplacements))
              = "Error: " +:+ Error e +:+ nl)).
Proof.
  split.
  - apply (all_or_nothing ["colors"; "s"] (one_file sample_scheme) nameReplacements).
    intros fname sname [= <- <-]. reflexivity.
  - apply (all_or_nothing ["other"; "s"] (one_file sample_scheme) nameReplacements).
    intros fname sname [= <- <-]. reflexivity.
Defined.

(** X12: a run succeeds exactly when it has two arguments, the session
    name is not empty, the file is read, and every key of the table has
    a value in the extracted mapping. *)
Theorem success_iff (args : list string) (fs : string -> file_result)
    (order : list (string * list Z)) :
  iteration_order order ->
  (exit_status (main args fs order) = 0 <->
   exists fname sname text,
     args = [fname; sname] /\ sname <> EmptyString /\ fs fname = Contents text /\
     forall k, In k required_keys -> is_Some (extracted text !! k)).
Proof.
  intros Hord. split.
  - unfold main. rewrite app_spec.
    destruct args as [|fname [|sname [|? ?]]]; try discriminate.
    destruct (String.eqb_spec sname EmptyString) as [|Hs]; [discriminate|].
    destruct (fs fname) as [msg|msg|text] eqn:Efs; try discriminate.
    destruct (FindAllStringSubmatch reParseItems text); [discriminate|].
    destruct (missing_keys order (extracted text)) eqn:E; [|discriminate].
    intros _. exists fname, sname, text. repeat split; try assumption.
    intros k Hk. apply (proj2 (missing_keys_none order (extracted text)) E).
    now apply (order_keys order Hord).
  - intros (fname & sname & text & -> & Hs & Hfs & Hall).
    now rewrite (run_complete fs order Hord fname sname text Hs Hfs Hall).
Qed.

Lemma success_iff_witness :
  exit_status (main ["colors"; "s"] (one_file sample_with_more) (rev nameReplacements)) = 0 <->
  exists fname sname text,
    ["colors"; "s"] = [fname; sname] /\ sname <> EmptyString /\
    one_file sample_with_more fname = Contents text /\
    forall k, In k required_keys -> is_Some (extracted text !! k).
Proof.
  apply (success_iff ["colors"; "s"] (one_file sample_with_more) (rev nameReplacements)).
  exact (Permutation_sym (Permutation_rev nameReplacements)).
Defined.

(** X13: the order in which the table is ranged over changes neither the
    status of a run nor what it writes to the standard output. *)
Theorem order_independent (args : list string) (fs : string -> file_result)
    (order1 order2 : list (string * list Z)) :
  iteration_order order1 -> iteration_order order2 ->
  exit_status (main args fs order1) = exit_status (main args fs order2) /\
  stdout_of (trace (main args fs order1)) = stdout_of (trace (main args fs order2)).
Proof.
  intros H1 H2. unfold main. rewrite !app_spec.
  destruct args as [|fname [|sname [|? ?]]]; try (split; reflexivity).
  destruct (String.eqb sname EmptyString); [split; reflexivity|].
  destruct (fs fname) as [msg|msg|text]; try (split; reflexivity).
  destruct (FindAllStringSubmatch reParseItems text); [split; reflexivity|].
  destruct (missing_keys order1 (extracted text)) as [|k1 ks1] eqn:E1;
    destruct (missing_keys order2 (extracted text)) as [|k2 ks2] eqn:E2.
  - rewrite (entries_of_present _ _ E1), (entries_of_present _ _ E2).
    rewrite (sorted_entries_order _ order1 H1), (sorted_entries_order _ order2 H2).
    split; reflexivity.
  - exfalso. assert (Hin : In k2 (missing_keys order2 (extracted text)))
      by (rewrite E2; now left).
    apply missing_keys_In in Hin. destruct Hin as [Hin Hnone].
    apply (order_keys order2 H2), (order_keys order1 H1) in Hin.
    destruct (proj2 (missing_keys_none order1 (extracted text)) E1 k2 Hin) as [h Hh].
    congruence.
  - exfalso. assert (Hin : In k1 (missing_keys order1 (extracted text)))
      by (rewrite E1; now left).
    apply missing_keys_In in Hin. destruct Hin as [Hin Hnone].
    apply (order_keys order1 H1), (order_keys order2 H2) in Hin.
    destruct (proj2 (missing_keys_none order2 (extracted text)) E2 k1 Hin) as [h Hh].
    congruence.
  - split; reflexivity.
Qed.

Lemma order_independent_witness :
  exit_status (main ["colors"; "s"] (one_file sample_scheme) nameReplacements)
  = exit_status (main ["colors"; "s"] (one_file sample_scheme) (rev nameReplacements)) /\
  stdout_of (trace (main ["colors"; "s"] (one_file sample_scheme) nameReplacements))
  = stdout_of (trace (main ["colors"; "s"] (one_file sample_scheme) (rev nameReplacements))).
Proof.
  apply (order_independent ["colors"; "s"] (one_file sample_scheme)
           nameReplacements (rev nameReplacements)).
  - apply Permutation_refl.
  - exact (Permutation_sym (Permutation_rev nameReplacements)).
Defined.

(** X14: when one key of the table alone has no value, the message of the
    error names that key and no other, whatever the order of the
    iteration. *)
Theorem one_missing_key (fname sname text k : string)
    (fs : string -> file_result) (order : list (string * list Z)) :
  iteration_order order ->
  sname <> EmptyString -> fs fname = Contents text ->
  In k required_keys -> extracted text !! k = None ->
  (forall k', In k' required_keys -> k' <> k -> is_Some (extracted text !! k')) ->
  main [fname; sname] fs order
  = mkProcess
      [OsOpen fname; FileClose fname;
       Stderr ("Error: the following keys weren't found in the config file: "
               +:+ k +:+ nl)] 1.
Proof.
  intros Hord Hs Hfs Hk Hnone Hothers.
  assert (Hobj : FindAllStringSubmatch reParseItems text <> []).
  { assert (Hex : exists k', In k' required_keys /\ k' <> k).
    { destruct (String.eqb_spec k "foreground") as [->|Hne].
      - exists "background". split; [vm_compute; tauto | discriminate].
      - exists "foreground". split; [vm_compute; tauto | congruence]. }
    destruct Hex as (k' & Hk' & Hne). destruct (Hothers k' Hk' Hne) as [h Hh].
    rewrite extracted_lookup in Hh. intros E. rewrite E in Hh. discriminate Hh. }
  assert (Hm : missing_keys order (extracted text) = [k]).
  { unfold missing_keys. apply filter_single.
    - apply (Permutation_NoDup (l := required_keys)); [|apply required_keys_NoDup].
      unfold required_keys. apply Permutation_map. now symmetry.
    - now apply (order_keys order Hord).
    - now rewrite Hnone.
    - intros k' Hk' Hne. apply (order_keys order Hord) in Hk'.
      destruct (Hothers k' Hk' Hne) as [h ->]. reflexivity. }
  unfold main.
  rewrite (run_incomplete fs order Hord fname sname text k Hs Hfs Hobj Hk Hnone), Hm.
  cbn [Error Join List.app]. rewrite !append_assoc. reflexivity.
Qed.

Lemma one_missing_key_witness :
  main ["colors"; "s"] (one_file sample_without_color7) (rev nameReplacements)
  = mkProcess
      [OsOpen "colors"; FileClose "colors";
       Stderr ("Error: the following keys weren't found in the config file: "
               +:+ "color7" +:+ nl)] 1.
Proof.
  apply (one_missing_key "colors" "s" sample_without_color7 "color7"
           (one_file sample_without_color7) (rev nameReplacements)).
  - exact (Permutation_sym (Permutation_rev nameReplacements)).
  - discriminate.
  - reflexivity.
  - vm_compute. tauto.
  - vm_compute. reflexivity.
  - intros k' Hin Hne. vm_compute in Hin.
    repeat (destruct Hin as [<-|Hin]; [try (eexists; vm_compute; reflexivity); congruence|]).
    destruct Hin.
Defined.

(** X15: [app] opens at most one file; it closes the file it opened,
    and no other, on every path, and closing it is the last thing it
    does. *)
Theorem file_closed (args : list string) (fs : string -> file_result)
    (order : list (string * list Z)) :
  let evs := fst (app args fs order) in
  (length (opened evs) <= 1)%nat /\
  closed evs = List.filter (opens fs) (opened evs) /\
  (closed evs = [] \/ exists fname, closed evs = [fname] /\
                                    List.last evs (OsOpen fname) = FileClose fname).
Proof.
  cbv zeta. rewrite app_spec.
  destruct args as [|fname [|sname [|? ?]]]; try (simpl; auto).
  destruct (String.eqb sname EmptyString); [simpl; auto|].
  unfold opens.
  destruct (fs fname) as [msg|msg|text] eqn:Efs.
  - simpl. rewrite Efs. auto.
  - simpl. rewrite Efs. split; [lia|]. split; [reflexivity|]. right. eauto.
  - destruct (FindAllStringSubmatch reParseItems text).
    + simpl. rewrite Efs. split; [lia|]. split; [reflexivity|]. right. eauto.
    + destruct (missing_keys order (extracted text));
        simpl; rewrite Efs; (split; [lia|]); (split; [reflexivity|]); right; eauto.
Qed.

(** X16: in a run that succeeds, each slot of each key of the table has
    its line in the output, with the three channels that the colour of
    the key writes, in decimal. *)
Theorem slot_lines (fname sname text k h : string) (items : list Z) (m : Z)
    (fs : string -> file_result) (order : list (string * list Z)) :
  iteration_order order ->
  fs fname = Contents text ->
  exit_status (main [fname; sname] fs order) = 0 ->
  In (k, items) nameReplacements -> In m items ->
  extracted text !! k = Some h ->
  In (quoted (colorPrefix +:+ itoa m) +:+ "="
      +:+ quoted (itoa (hex_value h 1 2) +:+ "," +:+ itoa (hex_value h 3 2)
                  +:+ "," +:+ itoa (hex_value h 5 2)))
     (lines (stdout_of (trace (main [fname; sname] fs order)))).
Proof.
  intros Hord Hfs Hok Hrow Hm Hh.
  destruct (success_inv fs order [fname; sname] Hord Hok)
    as (fname' & sname' & text' & [= <- <-] & Hfs' & _ & Hmain).
  rewrite Hfs in Hfs'. injection Hfs' as <-.
  rewrite Hmain. cbn [trace stdout_of]. rewrite append_nil_r.
  rewrite lines_output by apply sorted_entries_safe.
  apply in_or_app. right. apply in_or_app. left.
  change (quoted (colorPrefix +:+ itoa m) +:+ "="
          +:+ quoted (itoa (hex_value h 1 2) +:+ "," +:+ itoa (hex_value h 3 2)
                      +:+ "," +:+ itoa (hex_value h 5 2)))
    with (quoted (name (mkColormatch (colorPrefix +:+ itoa m) (colour_of h))) +:+ "="
          +:+ quoted (getRGB (mkColormatch (colorPrefix +:+ itoa m) (colour_of h)))).
  rewrite <- entry_text_quoted. apply in_map.
  assert (Hc : colour_in (extracted text) k = colour_of h)
    by (unfold colour_in; now rewrite Hh).
  rewrite <- Hc. clear Hc Hh Hmain Hok Hfs.
  unfold nameReplacements in Hrow. simpl in Hrow.
  repeat (destruct Hrow as [[= <- <-]|Hrow];
          [simpl in Hm;
           repeat (destruct Hm as [<-|Hm];
                   [unfold sorted_entries; repeat (try (left; reflexivity); right)|]);
           destruct Hm|]).
  destruct Hrow.
Qed.

Lemma slot_lines_witness :
  In (quoted "Colour21" +:+ "=" +:+ quoted "255,0,171")
     (lines (stdout_of (trace (main ["colors"; "s"] (one_file sample_with_more)
                                    nameReplacements)))).
Proof.
  apply (slot_lines "colors" "s" sample_with_more "color15" "#FF00aB" [21] 21
           (one_file sample_with_more) nameReplacements).
  - apply Permutation_refl.
  - reflexivity.
  - vm_compute. reflexivity.
  - vm_compute. tauto.
  - now left.
  - vm_compute. reflexivity.
Defined.

(** X17: the text that [getRGB] writes tells the three channels: two
    colours with the same text have the same red, green and blue (alpha
    is not written). *)
Theorem getRGB_injective (cm1 cm2 : colormatch) :
  getRGB cm1 = getRGB cm2 ->
  R (color cm1) = R (color cm2) /\ G (color cm1) = G (color cm2) /\
  B (color cm1) = B (color cm2).
Proof.
  unfold getRGB. cbn [String.append]. intros H.
  apply split_at_comma in H; try apply itoa_no_comma. destruct H as [Hr H].
  apply split_at_comma in H; try apply itoa_no_comma. destruct H as [Hg Hb].
  repeat split; now apply itoa_inj.
Qed.

Lemma getRGB_injective_witness :
  getRGB (mkColormatch "Colour0" (mkRGBA 26 43 60 255))
  = getRGB (mkColormatch "Colour1" (mkRGBA 26 43 60 0)) /\
  (26 = 26 /\ 43 = 43 /\ 60 = 60).
Proof.
  split; [reflexivity|].
  exact (getRGB_injective (mkColormatch "Colour0" (mkRGBA 26 43 60 255))
           (mkColormatch "Colour1" (mkRGBA 26 43 60 0)) eq_refl).
Defined.

(** X18: only the values of the 19 keys of the table count: two files
    whose extracted mappings agree on them give the same status and the
    same output, whatever else the files hold. *)
Theorem other_keys_ignored (fname1 fname2 sname text1 text2 : string)
    (fs1 fs2 : string -> file_result) (order : list (string * list Z)) :
  iteration_order order ->
  fs1 fname1 = Contents text1 -> fs2 fname2 = Contents text2 ->
  (forall k, In k required_keys -> extracted text1 !! k = extracted text2 !! k) ->
  exit_status (main [fname1; sname] fs1 order) = exit_status (main [fname2; sname] fs2 order) /\
  stdout_of (trace (main [fname1; sname] fs1 order))
  = stdout_of (trace (main [fname2; sname] fs2 order)).
Proof.
  intros Hord Hfs1 Hfs2 Hagree. unfold main. rewrite !app_spec, Hfs1, Hfs2.
  destruct (String.eqb sname EmptyString); [split; reflexivity|].
  destruct (missing_keys_agree order (extracted text1) (extracted text2)) as [Hm He].
  { intros k Hk. apply Hagree. now apply (order_keys order Hord). }
  assert (Hempty : forall text,
             FindAllStringSubmatch reParseItems text = [] ->
             exists k ks, missing_keys order (extracted text) = k :: ks).
  { intros text E. destruct (missing_keys order (extracted text)) as [|k ks] eqn:Em; [|eauto].
    exfalso. destruct (proj2 (missing_keys_none order (extracted text)) Em "foreground")
      as [h Hh].
    - apply (order_keys order Hord). vm_compute. tauto.
    - rewrite extracted_lookup, E in Hh. discriminate Hh. }
  destruct (FindAllStringSubmatch reParseItems text1) eqn:E1;
    destruct (FindAllStringSubmatch reParseItems text2) eqn:E2.
  - split; reflexivity.
  - destruct (Hempty text1 E1) as (k & ks & Em). rewrite <- Hm, Em. split; reflexivity.
  - destruct (Hempty text2 E2) as (k & ks & Em). rewrite Hm, Em. split; reflexivity.
  - rewrite Hm, He. destruct (missing_keys order (extracted text2)); split; reflexivity.
Qed.

Lemma other_keys_ignored_witness :
  exit_status (main ["colors"; "s"] (one_file sample_scheme) nameReplacements)
  = exit_status (main ["colors"; "s"] (one_file sample_with_more) nameReplacements) /\
  stdout_of (trace (main ["colors"; "s"] (one_file sample_scheme) nameReplacements))
  = stdout_of (trace (main ["colors"; "s"] (one_file sample_with_more) nameReplacements)).
Proof.
  apply (other_keys_ignored "colors" "colors" "s" sample_scheme sample_with_more
           (one_file sample_scheme) (one_file sample_with_more) nameReplacements).
  - apply Permutation_refl.
  - reflexivity.
  - reflexivity.
  - intros k Hin. vm_compute in Hin.
    repeat (destruct Hin as [<-|Hin]; [vm_compute; reflexivity|]). destruct Hin.
Defined.
